(** * audio/transport.c: media transport ownership and lock arbitration

    A shallow embedding of BlueZ's [audio/transport.c] and the properties
    of its Acquire / Release / disconnect protocol.

    The C code mutates one [struct media_transport] and the owners hanging
    off it, and talks to its collaborators (D-Bus, the A2DP and headset
    layers, the GLib main loop) through calls whose order matters.  The
    embedding threads a [world] through a state monad with failure:
    the transport, the log of calls made on collaborators, the queue of
    idle sources, and the allocator.  Failure stands for a dereference of
    a pointer that is NULL or no longer allocated. *)

From Stdlib Require Import String Ascii List ZArith NArith Bool Arith Lia.
Import ListNotations.

Local Open Scope string_scope.
Local Open Scope list_scope.

(** ** GLib string helpers used by the file *)

Module GLib.

(** [strchr (s, c) != NULL] for a character [c] other than NUL. *)
Fixpoint strchr (s : string) (c : ascii) : bool :=
  match s with
  | EmptyString => false
  | String d s' => if Ascii.eqb d c then true else strchr s' c
  end.

(** [g_strstr_len (haystack, -1, needle)]: with a negative length GLib
    defers to [strstr]; the result is the suffix of [haystack] starting
    at the first occurrence of [needle], or NULL. *)
Fixpoint g_strstr_len (haystack needle : string) : option string :=
  if String.prefix needle haystack then Some haystack
  else match haystack with
       | EmptyString => None
       | String _ rest => g_strstr_len rest needle
       end.

(** [g_strcmp0 (s1, s2)] on two non-NULL strings: the sign of [strcmp]. *)
Definition g_strcmp0 (s1 s2 : string) : Z :=
  match String.compare s1 s2 with
  | Eq => 0
  | Lt => -1
  | Gt => 1
  end.

(** [g_strdelimit (string, delimiters, new_delim)] with non-NULL
    [delimiters]: every character of [string] that occurs in
    [delimiters] is overwritten, in place, with [new_delim]. *)
Fixpoint g_strdelimit (s delimiters : string) (new_delim : ascii) : string :=
  match s with
  | EmptyString => EmptyString
  | String c s' =>
      String (if strchr delimiters c then new_delim else c)
             (g_strdelimit s' delimiters new_delim)
  end.

(** [g_slist_remove]-style helpers are defined with the owner list below,
    since list cells hold owner pointers. *)

End GLib.
Import GLib.

(** The test [g_strstr_len (s, -1, needle) != NULL]. *)
Definition non_null {A : Type} (p : option A) : bool :=
  match p with Some _ => true | None => false end.

(** ** Data model *)

Definition guint := N.
Definition uint16_t := N.

(** Address of a [struct media_owner] obtained from [g_new0]. *)
Definition owner_ptr := nat.

(** Handle of a [struct avdtp] signalling session. *)
Definition avdtp := nat.

(** The parts of a method call the handlers read: the sender's bus name
    and the result of [dbus_message_get_args] for one string argument
    ([None] when the arguments do not parse). *)
Record DBusMessage := mkMsg {
  serial : nat;
  sender : string;
  args   : option string
}.

(** [struct acquire_request]; the back pointer [owner] is the owner whose
    [request] field holds it. *)
Record acquire_request := mkReq {
  msg : DBusMessage;
  id  : guint
}.

(** [struct media_owner]; [addr] is the address of the struct, the identity
    under which the owner list, the disconnect watch, the resume callback
    and the idle source refer to it. *)
Record media_owner := mkOwner {
  addr       : owner_ptr;
  request    : option acquire_request;
  name       : string;
  accesstype : string;
  watch      : guint
}.

(** The five function pointers of [struct media_transport] are installed
    together, from one of two fixed sets. *)
Inductive transport_ops := a2dp_ops | headset_ops.

(** [struct media_transport].  The fields [conn], [path], [device],
    [endpoint], [configuration] and [size] are set once at creation and
    only passed on to collaborators; they are left out.  The owner list
    holds the owner structs themselves: an owner is allocated when it is
    appended and freed when it is removed, so the live owners are exactly
    the members of the list. *)
Record media_transport := mkTransport {
  session    : option avdtp;
  owners     : list media_owner;
  fd         : Z;
  imtu       : uint16_t;
  omtu       : uint16_t;
  delay      : uint16_t;
  read_lock  : bool;
  write_lock : bool;
  in_use     : bool;
  ops        : transport_ops
}.

(** Text of the errors the file creates, all under the D-Bus error name
    [ERROR_INTERFACE ".Failed"]. *)
Inductive error_text :=
| Permission_denied        (* "Permission denied" *)
| strerror_EIO.            (* strerror(EIO) *)

(** Messages built by the handlers. *)
Inductive reply :=
| g_dbus_create_error (m : DBusMessage) (text : error_text)
| g_dbus_create_reply (m : DBusMessage).

(** Calls made on collaborators, logged in program order. *)
Inductive call :=
| g_dbus_send_message (r : reply)
| g_dbus_send_reply (m : DBusMessage) (fd : Z)
| g_dbus_add_disconnect_watch (name : string) (owner : owner_ptr)
| g_dbus_remove_watch (tag : guint)
| dbus_message_unref (m : DBusMessage)
| emit_property_changed (property : string) (value : uint16_t)
| avdtp_get
| a2dp_sep_lock (s : avdtp)
| a2dp_sep_unlock (s : option avdtp)
| a2dp_resume (s : avdtp) (owner : owner_ptr)
| a2dp_cancel (ticket : guint)
| headset_lock
| headset_unlock
| headset_request_stream (owner : owner_ptr)
| headset_cancel_stream (ticket : guint).

Record world := mkWorld {
  transport : media_transport;
  calls     : list call;          (* calls on collaborators, oldest first *)
  idle      : list owner_ptr;     (* [g_idle_add (remove_owner, owner)] sources *)
  brk       : owner_ptr           (* next address [g_new0] hands out *)
}.

(** Field updates. *)
Definition set_request (r : option acquire_request) (o : media_owner) :=
  mkOwner (addr o) r (name o) (accesstype o) (watch o).
Definition set_accesstype (a : string) (o : media_owner) :=
  mkOwner (addr o) (request o) (name o) a (watch o).
Definition set_watch (w : guint) (o : media_owner) :=
  mkOwner (addr o) (request o) (name o) (accesstype o) w.

Definition set_session (s : option avdtp) (t : media_transport) :=
  mkTransport s (owners t) (fd t) (imtu t) (omtu t) (delay t)
              (read_lock t) (write_lock t) (in_use t) (ops t).
Definition set_owners (l : list media_owner) (t : media_transport) :=
  mkTransport (session t) l (fd t) (imtu t) (omtu t) (delay t)
              (read_lock t) (write_lock t) (in_use t) (ops t).
Definition set_channel (f : Z) (i o : uint16_t) (t : media_transport) :=
  mkTransport (session t) (owners t) f i o (delay t)
              (read_lock t) (write_lock t) (in_use t) (ops t).
Definition set_delay (d : uint16_t) (t : media_transport) :=
  mkTransport (session t) (owners t) (fd t) (imtu t) (omtu t) d
              (read_lock t) (write_lock t) (in_use t) (ops t).
Definition set_read_lock (b : bool) (t : media_transport) :=
  mkTransport (session t) (owners t) (fd t) (imtu t) (omtu t) (delay t)
              b (write_lock t) (in_use t) (ops t).
Definition set_write_lock (b : bool) (t : media_transport) :=
  mkTransport (session t) (owners t) (fd t) (imtu t) (omtu t) (delay t)
              (read_lock t) b (in_use t) (ops t).
Definition set_in_use (b : bool) (t : media_transport) :=
  mkTransport (session t) (owners t) (fd t) (imtu t) (omtu t) (delay t)
              (read_lock t) (write_lock t) b (ops t).

(** ** The owner list as a store of owner structs *)

(** Dereference an owner pointer: the struct at that address, if live. *)
Fixpoint lookup_owner (p : owner_ptr) (l : list media_owner) : option media_owner :=
  match l with
  | [] => None
  | o :: l' => if Nat.eqb (addr o) p then Some o else lookup_owner p l'
  end.

(** Write through an owner pointer. *)
Fixpoint update_owner (p : owner_ptr) (f : media_owner -> media_owner)
         (l : list media_owner) : list media_owner :=
  match l with
  | [] => []
  | o :: l' => if Nat.eqb (addr o) p then f o :: l' else o :: update_owner p f l'
  end.

(** [g_slist_remove (list, owner)]: drop the first cell holding the pointer. *)
Fixpoint g_slist_remove (l : list media_owner) (p : owner_ptr) : list media_owner :=
  match l with
  | [] => []
  | o :: l' => if Nat.eqb (addr o) p then l' else o :: g_slist_remove l' p
  end.

(** ** The monad: state with failure *)

Definition M (A : Type) : Type := world -> option (A * world).

Definition ret {A} (a : A) : M A := fun w => Some (a, w).

Definition bind {A B} (c : M A) (k : A -> M B) : M B :=
  fun w => match c w with
           | Some (a, w') => k a w'
           | None => None
           end.

(** Dereference of a NULL or dangling pointer. *)
Definition fault {A} : M A := fun _ => None.

Declare Scope transport_scope.
Delimit Scope transport_scope with M.
Notation "x <- c ;; k" := (bind c (fun x => k))
  (at level 61, c at next level, right associativity) : transport_scope.
Notation "c ;; k" := (bind c (fun _ => k))
  (at level 61, right associativity) : transport_scope.
Local Open Scope transport_scope.

Definition get : M media_transport := fun w => Some (transport w, w).

Definition modify (f : media_transport -> media_transport) : M unit :=
  fun w => Some (tt, mkWorld (f (transport w)) (calls w) (idle w) (brk w)).

Definition emit (c : call) : M unit :=
  fun w => Some (tt, mkWorld (transport w) (calls w ++ [c]) (idle w) (brk w)).

(** [g_idle_add (remove_owner, owner)]. *)
Definition g_idle_add (owner : owner_ptr) : M unit :=
  fun w => Some (tt, mkWorld (transport w) (calls w) (idle w ++ [owner]) (brk w)).

(** [g_new0 (struct media_owner, 1)]: an address not in use. *)
Definition g_new0 : M owner_ptr :=
  fun w => Some (brk w, mkWorld (transport w) (calls w) (idle w) (S (brk w))).

Definition when (b : bool) (c : M unit) : M unit :=
  if b then c else ret tt.

(** [*owner] *)
Definition deref (owner : owner_ptr) : M media_owner :=
  t <- get ;;
  match lookup_owner owner (owners t) with
  | Some o => ret o
  | None => fault
  end.

(** [owner->field = v] *)
Definition assign (owner : owner_ptr) (f : media_owner -> media_owner) : M unit :=
  _ <- deref owner ;;
  modify (fun t => set_owners (update_owner owner f (owners t)) t).

(** ** Outcomes supplied by collaborators *)

(** What the collaborators answer during one [acquire]. *)
Record resume_env := mkEnv {
  watch_tag   : guint;          (* g_dbus_add_disconnect_watch *)
  got_session : option avdtp;   (* avdtp_get *)
  locked      : bool;           (* a2dp_sep_lock / headset_lock *)
  ticket      : guint           (* a2dp_resume / headset_request_stream *)
}.

(** What [a2dp_resume_complete] is called with and what its callees answer:
    [stream] is [None] when [a2dp_sep_get_stream] returns NULL and
    [Some None] when [avdtp_stream_get_transport] returns FALSE. *)
Record a2dp_completion := mkA2dpDone {
  err     : bool;
  stream  : option (option (Z * uint16_t * uint16_t));
  replied : bool                (* g_dbus_send_reply *)
}.

(** What [headset_resume_complete] is called with: [dev] is [false] for a
    NULL device. *)
Record headset_completion := mkHeadsetDone {
  dev      : bool;
  sco_fd   : Z;                 (* headset_get_sco_fd *)
  hreplied : bool               (* g_dbus_send_reply *)
}.

(** ** The functions of transport.c *)

Definition cancel_a2dp (ticket : guint) : M unit :=
  emit (a2dp_cancel ticket).

Definition cancel_headset (ticket : guint) : M unit :=
  emit (headset_cancel_stream ticket).

(** [transport->cancel (transport, id)] *)
Definition cancel (ticket : guint) : M unit :=
  t <- get ;;
  match ops t with
  | a2dp_ops => cancel_a2dp ticket
  | headset_ops => cancel_headset ticket
  end.

Definition suspend_a2dp : M unit :=
  t <- get ;;
  emit (a2dp_sep_unlock (session t)) ;;
  modify (set_in_use false).

Definition suspend_headset : M unit :=
  emit headset_unlock ;;
  modify (set_in_use false).

(** [transport->suspend (transport)] *)
Definition suspend : M unit :=
  t <- get ;;
  match ops t with
  | a2dp_ops => suspend_a2dp
  | headset_ops => suspend_headset
  end.

(** [req] is passed as the owner holding it ([req->owner]). *)
Definition acquire_request_free (owner : owner_ptr) : M unit :=
  o <- deref owner ;;
  match request o with
  | None => fault
  | Some req =>
      when (negb (N.eqb (id req) 0)) (cancel (id req)) ;;
      emit (dbus_message_unref (msg req)) ;;
      assign owner (set_request None)
  end.

Definition media_transport_release (accesstype : string) : M bool :=
  when (non_null (g_strstr_len accesstype "r")) (modify (set_read_lock false)) ;;
  when (non_null (g_strstr_len accesstype "w")) (modify (set_write_lock false)) ;;
  ret true.

Definition media_owner_remove (owner : owner_ptr) : M unit :=
  o <- deref owner ;;
  _ <- media_transport_release (accesstype o) ;;
  when (negb (N.eqb (watch o) 0)) (emit (g_dbus_remove_watch (watch o))) ;;
  match request o with
  | Some req =>
      emit (g_dbus_send_message (g_dbus_create_error (msg req) strerror_EIO)) ;;
      acquire_request_free owner
  | None => ret tt
  end ;;
  modify (fun t => set_owners (g_slist_remove (owners t) owner) t) ;;
  t <- get ;;
  (* Suspend if the is no longer any owner *)
  match owners t with
  | [] => suspend
  | _ :: _ => ret tt
  end.

Definition media_transport_set_fd (fd' : Z) (imtu' omtu' : uint16_t) : M bool :=
  t <- get ;;
  if Z.eqb (fd t) fd' then ret true
  else
    modify (set_channel fd' imtu' omtu') ;;
    emit (emit_property_changed "IMTU" imtu') ;;
    emit (emit_property_changed "OMTU" omtu') ;;
    ret true.

(** The idle source: runs once ([return FALSE] drops the source). *)
Definition remove_owner (data : owner_ptr) : M bool :=
  media_owner_remove data ;;
  ret false.

Definition a2dp_resume_complete (r : a2dp_completion) (user_data : owner_ptr) : M unit :=
  let owner := user_data in
  o <- deref owner ;;
  match request o with
  | None => fault
  | Some req =>
      assign owner (set_request (Some (mkReq (msg req) 0%N))) ;;
      let fail := (* Let the stream state change before removing the owner *)
                  g_idle_add owner in
      if err r then fail
      else match stream r with
           | None => fail
           | Some None => fail
           | Some (Some (fd', imtu', omtu')) =>
               _ <- media_transport_set_fd fd' imtu' omtu' ;;
               emit (g_dbus_send_reply (msg req) fd') ;;
               if replied r then ret tt else fail
           end
  end.

Definition resume_a2dp (e : resume_env) (owner : owner_ptr) : M guint :=
  t <- get ;;
  let with_session (s : avdtp) : M guint :=
    t <- get ;;
    let done := emit (a2dp_resume s owner) ;; ret (ticket e) in
    if in_use t then done
    else
      emit (a2dp_sep_lock s) ;;
      modify (set_in_use (locked e)) ;;
      if locked e then done else ret 0%N in
  match session t with
  | None =>
      emit avdtp_get ;;
      modify (set_session (got_session e)) ;;
      match got_session e with
      | None => ret 0%N
      | Some s => with_session s
      end
  | Some s => with_session s
  end.

Definition headset_resume_complete (r : headset_completion) (user_data : owner_ptr) : M unit :=
  let owner := user_data in
  o <- deref owner ;;
  match request o with
  | None => fault
  | Some req =>
      assign owner (set_request (Some (mkReq (msg req) 0%N))) ;;
      let fail := media_owner_remove owner in
      if negb (dev r) then fail
      else if Z.ltb (sco_fd r) 0 then fail
      else
        _ <- media_transport_set_fd (sco_fd r) 48%N 48%N ;;
        emit (g_dbus_send_reply (msg req) (sco_fd r)) ;;
        if hreplied r then ret tt else fail
  end.

Definition resume_headset (e : resume_env) (owner : owner_ptr) : M guint :=
  t <- get ;;
  let done := emit (headset_request_stream owner) ;; ret (ticket e) in
  if in_use t then done
  else
    emit headset_lock ;;
    modify (set_in_use (locked e)) ;;
    if locked e then done else ret 0%N.

(** [transport->resume (transport, owner)] *)
Definition resume (e : resume_env) (owner : owner_ptr) : M guint :=
  t <- get ;;
  match ops t with
  | a2dp_ops => resume_a2dp e owner
  | headset_ops => resume_headset e owner
  end.

Definition media_owner_exit (user_data : owner_ptr) : M unit :=
  let owner := user_data in
  assign owner (set_watch 0%N) ;;
  o <- deref owner ;;
  match request o with
  | Some _ => acquire_request_free owner
  | None => ret tt
  end ;;
  media_owner_remove owner.

Definition media_transport_acquire (accesstype : string) : M bool :=
  t <- get ;;
  let wants_r := non_null (g_strstr_len accesstype "r") in
  let wants_w := non_null (g_strstr_len accesstype "w") in
  if wants_r && read_lock t then ret false
  else if wants_w && write_lock t then ret false
  else
    let read_lock' := wants_r in
    let write_lock' := wants_w in
    (* Check invalid accesstype *)
    if negb read_lock' && negb write_lock' then ret false
    else
      when read_lock' (modify (set_read_lock read_lock')) ;;
      when write_lock' (modify (set_write_lock write_lock')) ;;
      ret true.

Definition media_owner_create (e : resume_env) (m : DBusMessage)
           (accesstype : string) : M owner_ptr :=
  owner <- g_new0 ;;
  emit (g_dbus_add_disconnect_watch (sender m) owner) ;;
  modify (fun t =>
    set_owners (owners t ++ [mkOwner owner None (sender m) accesstype (watch_tag e)]) t) ;;
  ret owner.

Fixpoint find_owner_in (l : list media_owner) (name' : string) : option owner_ptr :=
  match l with
  | [] => None
  | owner :: l' =>
      if Z.eqb (g_strcmp0 (name owner) name') 0 then Some (addr owner)
      else find_owner_in l' name'
  end.

Definition media_transport_find_owner (name' : string) : M (option owner_ptr) :=
  t <- get ;;
  ret (find_owner_in (owners t) name').

(** The [Acquire] method; the result is the message returned to the D-Bus
    layer ([None] for NULL: no reply yet). *)
Definition acquire (e : resume_env) (m : DBusMessage) : M (option reply) :=
  match args m with
  | None => ret None
  | Some accesstype =>
      found <- media_transport_find_owner (sender m) ;;
      match found with
      | Some _ => ret (Some (g_dbus_create_error m Permission_denied))
      | None =>
          ok <- media_transport_acquire accesstype ;;
          if negb ok then ret (Some (g_dbus_create_error m Permission_denied))
          else
            owner <- media_owner_create e m accesstype ;;
            ticket' <- resume e owner ;;
            assign owner (set_request (Some (mkReq m ticket'))) ;;
            when (N.eqb ticket' 0) (media_owner_remove owner) ;;
            ret None
      end
  end.

(** The [Release] method. *)
Definition release (m : DBusMessage) : M (option reply) :=
  match args m with
  | None => ret None
  | Some accesstype' =>
      found <- media_transport_find_owner (sender m) ;;
      match found with
      | None => ret (Some (g_dbus_create_error m Permission_denied))
      | Some owner =>
          o <- deref owner ;;
          if Z.eqb (g_strcmp0 (accesstype o) accesstype') 0 then
            media_owner_remove owner ;;
            ret (Some (g_dbus_create_reply m))
          else if non_null (g_strstr_len (accesstype o) accesstype') then
            _ <- media_transport_release accesstype' ;;
            assign owner (fun o => set_accesstype (g_strdelimit (accesstype o) accesstype' " ") o) ;;
            ret (Some (g_dbus_create_reply m))
          else ret (Some (g_dbus_create_error m Permission_denied))
      end
  end.

(** [g_slist_foreach (transport->owners, media_owner_remove, NULL)]:
    the traversal reads each cell's successor before the call, so every
    owner that was on the list is visited once. *)
Fixpoint foreach_owner_remove (l : list owner_ptr) : M unit :=
  match l with
  | [] => ret tt
  | owner :: l' => media_owner_remove owner ;; foreach_owner_remove l'
  end.

(** The owners go first; the releases of the session, the connection
    and the struct itself that follow touch nothing modelled here. *)
Definition media_transport_free : M unit :=
  t <- get ;;
  foreach_owner_remove (map addr (owners t)).

Definition media_transport_update_delay (delay' : uint16_t) : M unit :=
  t <- get ;;
  (* Check if delay really changed *)
  if N.eqb (delay t) delay' then ret tt
  else
    modify (set_delay delay') ;;
    emit (emit_property_changed "Delay" delay').

(** Values of the property dictionary, by D-Bus type. *)
Inductive variant :=
| object_path (s : string)
| boolean (b : bool)
| uint16 (n : uint16_t)
| dbus_string (s : string)
| byte (n : N)
| byte_array (l : list N).

(** What [get_properties] reads besides the transport's own scalars. *)
Record surroundings := mkSurroundings {
  device_path   : string;    (* transport->device->path *)
  uuid          : string;    (* media_endpoint_get_uuid *)
  codec         : N;         (* media_endpoint_get_codec *)
  configuration : list N;    (* transport->configuration, [size] bytes *)
  nrec          : bool;      (* headset_get_nrec *)
  inband        : bool       (* headset_get_inband *)
}.

Definition get_properties_a2dp (t : media_transport) : list (string * variant) :=
  [("Delay", uint16 (delay t))].

Definition get_properties_headset (s : surroundings) : list (string * variant) :=
  [("NREC", boolean (nrec s)); ("InbandRingtone", boolean (inband s))].

(** The [GetProperties] method: the entries appended to the reply, in
    order; [None] when the reply cannot be allocated. *)
Definition get_properties (s : surroundings) (allocated : bool)
           (t : media_transport) : option (list (string * variant)) :=
  if negb allocated then None
  else
    Some ([("Device", object_path (device_path s));
           ("ReadLock", boolean (read_lock t));
           ("WriteLock", boolean (write_lock t));
           ("IMTU", uint16 (imtu t));
           ("OMTU", uint16 (omtu t));
           ("UUID", dbus_string (uuid s));
           ("Codec", byte (codec s));
           ("Configuration", byte_array (configuration s))]
          ++ match ops t with
             | a2dp_ops => get_properties_a2dp t
             | headset_ops => get_properties_headset s
             end).

(** The endpoint UUIDs [media_transport_create] distinguishes. *)
Inductive endpoint_uuid :=
| A2DP_SOURCE_UUID | A2DP_SINK_UUID | HFP_AG_UUID | HSP_AG_UUID | other_uuid.

(** [media_transport_create]: the zeroed struct with [fd = -1] and the
    function pointers of the endpoint's profile; NULL for an unknown UUID
    or when the interface cannot be registered. *)
Definition media_transport_create (uuid : endpoint_uuid) (registered : bool)
  : option media_transport :=
  let new ops := mkTransport None [] (-1) 0%N 0%N 0%N false false false ops in
  match uuid with
  | A2DP_SOURCE_UUID | A2DP_SINK_UUID =>
      if registered then Some (new a2dp_ops) else None
  | HFP_AG_UUID | HSP_AG_UUID =>
      if registered then Some (new headset_ops) else None
  | other_uuid => None
  end.

(** ** The event loop *)

(** What can happen to a transport between two returns to the main loop. *)
Inductive event :=
| Acquire (e : resume_env) (m : DBusMessage)        (* method call *)
| Release (m : DBusMessage)                          (* method call *)
| Disconnect (client : string)                       (* bus name vanished *)
| A2dpDone (r : a2dp_completion) (owner : owner_ptr) (* resume callback *)
| HeadsetDone (r : headset_completion) (owner : owner_ptr)
| Idle.                                              (* first idle source *)

(** The disconnect watch of an owner was registered on [owner->name] with
    the owner as user data; when that name leaves the bus the D-Bus layer
    calls [media_owner_exit] on it. *)
Definition disconnect (client : string) : M unit :=
  found <- media_transport_find_owner client ;;
  match found with
  | None => ret tt
  | Some owner =>
      o <- deref owner ;;
      if N.eqb (watch o) 0 then ret tt else media_owner_exit owner
  end.

(** The main loop runs the oldest idle source. *)
Definition run_idle : M unit :=
  fun w =>
    match idle w with
    | [] => Some (tt, w)
    | owner :: rest =>
        (_ <- remove_owner owner ;; ret tt)
          (mkWorld (transport w) (calls w) rest (brk w))
    end.

(** A message returned by a method handler is sent by the D-Bus layer. *)
Definition deliver (r : option reply) : M unit :=
  match r with
  | Some r' => emit (g_dbus_send_message r')
  | None => ret tt
  end.

Definition step (ev : event) : M unit :=
  match ev with
  | Acquire e m => r <- acquire e m ;; deliver r
  | Release m => r <- release m ;; deliver r
  | Disconnect client => disconnect client
  | A2dpDone r owner => a2dp_resume_complete r owner
  | HeadsetDone r owner => headset_resume_complete r owner
  | Idle => run_idle
  end.

Fixpoint run (evs : list event) : M unit :=
  match evs with
  | [] => ret tt
  | ev :: evs' => step ev ;; run evs'
  end.

(** Acquire, Release and client disconnect: the operations clients drive. *)
Definition client_op (ev : event) : bool :=
  match ev with
  | Acquire _ _ | Release _ | Disconnect _ => true
  | _ => false
  end.

(** A freshly created transport in an otherwise empty world. *)
Definition boot (t : media_transport) : world := mkWorld t [] [] 0.

Definition new_transport (o : transport_ops) : media_transport :=
  mkTransport None [] (-1) 0%N 0%N 0%N false false false o.

(** ** Observations *)

(** An owner holds an access when its access string mentions the letter,
    the test [media_transport_release] applies to it. *)
Definition holds (letter : string) (o : media_owner) : bool :=
  non_null (g_strstr_len (accesstype o) letter).

Definition holders (letter : string) (w : world) : list media_owner :=
  filter (holds letter) (owners (transport w)).

(** Read and write locks agree with the owners on the list. *)
Definition locks_agree (w : world) : Prop :=
  (read_lock (transport w) = true <-> length (holders "r" w) = 1) /\
  (write_lock (transport w) = true <-> length (holders "w" w) = 1).

(** The owner a client has on the transport, if any. *)
Definition owner_of (client : string) (w : world) : option media_owner :=
  match find_owner_in (owners (transport w)) client with
  | Some p => lookup_owner p (owners (transport w))
  | None => None
  end.

(** Equality of method calls. *)
Definition msg_eqb (m m' : DBusMessage) : bool :=
  Nat.eqb (serial m) (serial m') && String.eqb (sender m) (sender m') &&
  match args m, args m' with
  | Some a, Some a' => String.eqb a a'
  | None, None => true
  | _, _ => false
  end.

(** Classes of calls, for counting. *)
Definition is_error_reply_to (m : DBusMessage) (c : call) : bool :=
  match c with
  | g_dbus_send_message (g_dbus_create_error m' _) => msg_eqb m' m
  | _ => false
  end.

Definition is_fd_reply (c : call) : bool :=
  match c with
  | g_dbus_send_reply _ _ => true
  | _ => false
  end.

Definition is_cancel (c : call) : bool :=
  match c with
  | a2dp_cancel _ | headset_cancel_stream _ => true
  | _ => false
  end.

Definition is_unlock (c : call) : bool :=
  match c with
  | a2dp_sep_unlock _ | headset_unlock => true
  | _ => false
  end.

Definition is_property_changed (c : call) : bool :=
  match c with
  | emit_property_changed _ _ => true
  | _ => false
  end.

Definition is_resume (c : call) : bool :=
  match c with
  | avdtp_get | a2dp_sep_lock _ | a2dp_resume _ _
  | headset_lock | headset_request_stream _ => true
  | _ => false
  end.

(** How many calls of a class a log holds. *)
Definition count (p : call -> bool) (l : list call) : nat :=
  length (filter p l).

(** ** Derived notions used in the statements *)

(** One when the owner satisfies [P], else nought. *)
Definition tally (P : media_owner -> bool) (o : media_owner) : nat :=
  if P o then 1 else 0.

(** Every live owner sits below the allocator's next address. *)
Definition below (n : owner_ptr) (l : list media_owner) : Prop :=
  Forall (fun o => addr o < n) l.

(** The call [transport->cancel] makes. *)
Definition cancel_call (t : media_transport) (ticket : guint) : call :=
  match ops t with
  | a2dp_ops => a2dp_cancel ticket
  | headset_ops => headset_cancel_stream ticket
  end.

(** The call [transport->suspend] makes. *)
Definition unlock_call (t : media_transport) : call :=
  match ops t with
  | a2dp_ops => a2dp_sep_unlock (session t)
  | headset_ops => headset_unlock
  end.

(** Calls of [acquire_request_free]. *)
Definition free_calls (t : media_transport) (req : acquire_request) : list call :=
  (if N.eqb (id req) 0 then [] else [cancel_call t (id req)]) ++
  [dbus_message_unref (msg req)].

(** Calls made when the last owner goes. *)
Definition last_owner_calls (t : media_transport) (p : owner_ptr) : list call :=
  match g_slist_remove (owners t) p with
  | [] => [unlock_call t]
  | _ :: _ => []
  end.

(** Calls of [media_owner_remove] on owner [o]. *)
Definition teardown_calls (t : media_transport) (o : media_owner) : list call :=
  (if N.eqb (watch o) 0 then [] else [g_dbus_remove_watch (watch o)]) ++
  match request o with
  | Some req =>
      g_dbus_send_message (g_dbus_create_error (msg req) strerror_EIO)
        :: free_calls t req
  | None => []
  end ++
  last_owner_calls t (addr o).

(** Calls of [media_owner_exit] on owner [o]. *)
Definition exit_calls (t : media_transport) (o : media_owner) : list call :=
  match request o with
  | Some req => free_calls t req
  | None => []
  end ++
  last_owner_calls t (addr o).

(** The transport once owner [o] is off the list. *)
Definition without_owner (o : media_owner) (t : media_transport) : media_transport :=
  let rest := g_slist_remove (owners t) (addr o) in
  mkTransport (session t) rest (fd t) (imtu t) (omtu t) (delay t)
    (read_lock t && negb (holds "r" o))
    (write_lock t && negb (holds "w" o))
    (match rest with [] => false | _ :: _ => in_use t end)
    (ops t).

(** The world after [media_owner_remove] on owner [o]. *)
Definition torn_down (o : media_owner) (w : world) : world :=
  mkWorld (without_owner o (transport w))
          (calls w ++ teardown_calls (transport w) o) (idle w) (brk w).

(** The world after [media_owner_exit] on owner [o]. *)
Definition exited (o : media_owner) (w : world) : world :=
  mkWorld (without_owner o (transport w))
          (calls w ++ exit_calls (transport w) o) (idle w) (brk w).

(** Owner addresses are distinct and were all handed out by the
    allocator; each lock is set exactly when one owner holds it and no
    lock has two holders. *)
Definition inv_core (n : owner_ptr) (l : list media_owner) (rl wl : bool) : Prop :=
  below n l /\
  NoDup (map addr l) /\
  length (filter (holds "r") l) = Nat.b2n rl /\
  length (filter (holds "w") l) = Nat.b2n wl.

(** The invariant of a world. *)
Definition Inv (w : world) : Prop :=
  inv_core (brk w) (owners (transport w))
           (read_lock (transport w)) (write_lock (transport w)).

(** When [transport->resume] returns no ticket. *)
Definition sync_failure (t : media_transport) (e : resume_env) : bool :=
  match ops t with
  | a2dp_ops =>
      match session t, got_session e with
      | None, None => true
      | _, _ => negb (in_use t) && negb (locked e) || N.eqb (ticket e) 0
      end
  | headset_ops => negb (in_use t) && negb (locked e) || N.eqb (ticket e) 0
  end.

(** Calls on the profile layer that [resume] makes, and no others. *)
Definition only_resume_calls (cs : list call) : Prop :=
  Forall (fun c => is_resume c = true) cs.

(** What [media_transport_acquire] answers. *)
Definition grantable (a : string) (t : media_transport) : bool :=
  negb (non_null (g_strstr_len a "r") && read_lock t) &&
  negb (non_null (g_strstr_len a "w") && write_lock t) &&
  (non_null (g_strstr_len a "r") || non_null (g_strstr_len a "w")).

(** The lock bits [media_transport_acquire] sets for access string [a]. *)
Definition take_locks (a : string) (t : media_transport) : media_transport :=
  mkTransport (session t) (owners t) (fd t) (imtu t) (omtu t) (delay t)
    (if non_null (g_strstr_len a "r") then true else read_lock t)
    (if non_null (g_strstr_len a "w") then true else write_lock t)
    (in_use t) (ops t).

(** The lock bits [media_transport_release] clears for access string [a]. *)
Definition drop_locks (a : string) (t : media_transport) : media_transport :=
  mkTransport (session t) (owners t) (fd t) (imtu t) (omtu t) (delay t)
    (if non_null (g_strstr_len a "r") then false else read_lock t)
    (if non_null (g_strstr_len a "w") then false else write_lock t)
    (in_use t) (ops t).

(** The completion callbacks leave owners, locks and allocator alone
    apart from clearing the ticket. *)
Definition same_ownership (l : list media_owner) (w w' : world) : Prop :=
  owners (transport w') = l /\
  read_lock (transport w') = read_lock (transport w) /\
  write_lock (transport w') = write_lock (transport w) /\
  session (transport w') = session (transport w) /\
  in_use (transport w') = in_use (transport w) /\
  ops (transport w') = ops (transport w) /\
  brk w' = brk w.

(** The owner once the resume callback has zeroed its ticket. *)
Definition cleared (o : media_owner) (req : acquire_request) : media_owner :=
  set_request (Some (mkReq (msg req) 0%N)) o.

(** The A2DP resume callback takes its [fail] exit. *)
Definition a2dp_failed (r : a2dp_completion) : bool :=
  err r ||
  match stream r with
  | Some (Some _) => negb (replied r)
  | _ => true
  end.

(** The headset resume callback takes its [fail] exit. *)
Definition headset_failed (r : headset_completion) : bool :=
  negb (dev r) || Z.ltb (sco_fd r) 0 || negb (hreplied r).

(** Calls that only owner teardown makes. *)
Definition is_teardown_call (c : call) : bool :=
  match c with
  | g_dbus_send_message _ | g_dbus_remove_watch _ | dbus_message_unref _
  | a2dp_cancel _ | headset_cancel_stream _
  | a2dp_sep_unlock _ | headset_unlock => true
  | _ => false
  end.

(** Fields of the MTU pair that a publication changes. *)
Definition mtu_changes (t : media_transport) (imtu' omtu' : uint16_t) : nat :=
  (if N.eqb (imtu t) imtu' then 0 else 1) + (if N.eqb (omtu t) omtu' then 0 else 1).

(** What a partial release leaves: the named locks dropped and the named
    letters blanked in the owner's access string. *)
Definition partly_released (a : string) (p : owner_ptr) (w : world) : world :=
  mkWorld
    (set_owners
       (update_owner p
          (fun o => set_accesstype (g_strdelimit (accesstype o) a " ") o)
          (owners (transport w)))
       (drop_locks a (transport w)))
    (calls w) (idle w) (brk w).

(** The owner [acquire] creates for message [m]. *)
Definition new_owner (e : resume_env) (m : DBusMessage) (a : string)
           (p : owner_ptr) (tk : guint) : media_owner :=
  mkOwner p (Some (mkReq m tk)) (sender m) a (watch_tag e).

(** Acquire "r" from client :1.42. *)
Definition acquire_r : DBusMessage := mkMsg 1 ":1.42" (Some "r").

(** Collaborators that grant the session and the lock and hand out
    ticket 11. *)
Definition resume_pending : resume_env := mkEnv 7%N (Some 3) true 11%N.

(** The world a run from a new transport ends in. *)
Definition world_after (evs : list event) (o : transport_ops) : world :=
  match run evs (boot (new_transport o)) with
  | Some (_, w) => w
  | None => boot (new_transport o)
  end.

(** Acquire "rw" from client :1.42. *)
Definition acquire_rw : DBusMessage := mkMsg 1 ":1.42" (Some "rw").

(** A headset transport whose voice channel is up: client :1.42 acquired
    "rw" and the resume completed with SCO descriptor 5, which publishes
    the MTU pair 48, 48. *)
Definition streaming : world :=
  Eval vm_compute in
    world_after [Acquire resume_pending acquire_rw;
                 HeadsetDone (mkHeadsetDone true 5 true) 0]
                headset_ops.

(** A resume that completes with descriptor 9 and MTU 672 both ways. *)
Definition stream_ready : a2dp_completion :=
  mkA2dpDone false (Some (Some (9%Z, 672%N, 672%N))) true.

(** Client :1.42 acquired "rw" and its resume completed. *)
Definition holding_rw : world :=
  Eval vm_compute in
    world_after [Acquire resume_pending acquire_rw; A2dpDone stream_ready 0]
                a2dp_ops.

(** Client :1.42 acquired "r" and its resume is still pending. *)
Definition awaiting_r : world :=
  Eval vm_compute in world_after [Acquire resume_pending acquire_r] a2dp_ops.

(** The owner of :1.42 in [holding_rw]. *)
Definition owner_rw : media_owner :=
  mkOwner 0 (Some (mkReq acquire_rw 0%N)) ":1.42" "rw" 7%N.

(** The owner of :1.42 in [awaiting_r]. *)
Definition owner_r : media_owner :=
  mkOwner 0 (Some (mkReq acquire_r 11%N)) ":1.42" "r" 7%N.

(** No signalling session can be had. *)
Definition no_session : resume_env := mkEnv 7%N None true 11%N.

(** Acquire "rw", give back "r", then vanish. *)
Definition short_session : list event :=
  [Acquire resume_pending acquire_rw; Release (mkMsg 2 ":1.42" (Some "r"));
   Disconnect ":1.42"].

(** ** Closed forms, transitions and further observations *)

(** The session [transport->resume] leaves on the transport. *)
Definition resumed_session (t : media_transport) (e : resume_env) : option avdtp :=
  match ops t, session t with
  | a2dp_ops, None => got_session e
  | _, _ => session t
  end.

(** The value of [in_use] [transport->resume] leaves on the transport. *)
Definition resumed_in_use (t : media_transport) (e : resume_env) : bool :=
  match ops t with
  | a2dp_ops =>
      match session t, got_session e with
      | None, None => in_use t
      | _, _ => in_use t || locked e
      end
  | headset_ops => in_use t || locked e
  end.

(** The calls [transport->resume] makes for owner [p]. *)
Definition resume_calls (t : media_transport) (e : resume_env) (p : owner_ptr)
  : list call :=
  match ops t with
  | a2dp_ops =>
      (match session t with None => [avdtp_get] | Some _ => [] end) ++
      match resumed_session t e with
      | None => []
      | Some s =>
          (if in_use t then [] else [a2dp_sep_lock s]) ++
          (if in_use t || locked e then [a2dp_resume s p] else [])
      end
  | headset_ops =>
      (if in_use t then [] else [headset_lock]) ++
      (if in_use t || locked e then [headset_request_stream p] else [])
  end.

(** The ticket [transport->resume] returns. *)
Definition resume_ticket (t : media_transport) (e : resume_env) : guint :=
  if sync_failure t e then 0%N else ticket e.

(** The world [transport->resume] leaves. *)
Definition resumed (e : resume_env) (p : owner_ptr) (w : world) : world :=
  mkWorld
    (set_in_use (resumed_in_use (transport w) e)
       (set_session (resumed_session (transport w) e) (transport w)))
    (calls w ++ resume_calls (transport w) e p) (idle w) (brk w).

(** The world a granted Acquire leaves before the ticket is looked at. *)
Definition granted (e : resume_env) (m : DBusMessage) (a : string) (w : world)
  : world :=
  let t := transport w in
  mkWorld
    (set_in_use (resumed_in_use t e)
       (set_session (resumed_session t e)
          (set_owners (owners t ++ [new_owner e m a (brk w) (resume_ticket t e)])
             (take_locks a t))))
    (calls w ++ g_dbus_add_disconnect_watch (sender m) (brk w)
             :: resume_calls t e (brk w))
    (idle w) (S (brk w)).

(** The resume callbacks among the events. *)
Definition is_completion (ev : event) : bool :=
  match ev with
  | A2dpDone _ _ | HeadsetDone _ _ => true
  | _ => false
  end.

(** What a method call, a disconnect or an idle source can do to the
    transport. *)
Inductive outcome (w : world) : world -> Prop :=
| out_same : outcome w w
| out_granted e m a :
    args m = Some a ->
    find_owner_in (owners (transport w)) (sender m) = None ->
    grantable a (transport w) = true ->
    sync_failure (transport w) e = false ->
    outcome w (granted e m a w)
| out_failed e m a :
    args m = Some a ->
    find_owner_in (owners (transport w)) (sender m) = None ->
    grantable a (transport w) = true ->
    sync_failure (transport w) e = true ->
    outcome w (torn_down (new_owner e m a (brk w) 0%N) (granted e m a w))
| out_released p o :
    lookup_owner p (owners (transport w)) = Some o ->
    outcome w (torn_down o w)
| out_partly a p o :
    lookup_owner p (owners (transport w)) = Some o ->
    non_null (g_strstr_len (accesstype o) a) = true ->
    outcome w (partly_released a p w)
| out_exited p o :
    lookup_owner p (owners (transport w)) = Some o ->
    outcome w (exited o w).

(** A world that differs from another in the log of calls and the idle
    queue only. *)
Definition same_transport (w w' : world) : Prop :=
  transport w' = transport w /\ brk w' = brk w.

(** One owner per client name, and the profile lock held exactly while
    the transport has an owner. *)
Definition tidy (w : world) : Prop :=
  NoDup (map name (owners (transport w))) /\
  (in_use (transport w) = true <-> owners (transport w) <> []).

(** Messages put on the bus, replies included. *)
Definition is_sent (c : call) : bool :=
  match c with
  | g_dbus_send_message _ | g_dbus_send_reply _ _ => true
  | _ => false
  end.

Definition is_remove_watch (c : call) : bool :=
  match c with
  | g_dbus_remove_watch _ => true
  | _ => false
  end.


(** The entry a client finds under a key. *)
Fixpoint dict_lookup (key : string) (d : list (string * variant)) : option variant :=
  match d with
  | [] => None
  | (k, v) :: d' => if String.eqb k key then Some v else dict_lookup key d'
  end.

(** Acquire "w" from a second client, :1.7. *)
Definition acquire_w : DBusMessage := mkMsg 2 ":1.7" (Some "w").

(** Two clients share the transport; the first resume completes and its
    client gives the read lock back in full. *)
Definition two_clients : list event :=
  [Acquire resume_pending acquire_r; Acquire resume_pending acquire_w;
   A2dpDone stream_ready 0; Release (mkMsg 3 ":1.42" (Some "r"))].

Definition after_two_clients : world :=
  Eval vm_compute in world_after two_clients a2dp_ops.

(** A resume that fails. *)
Definition stream_error : a2dp_completion := mkA2dpDone true None false.

(** * Properties *)

(** ** Strings *)

Section Strings.

Lemma strchr_In s c : strchr s c = true <-> In c (list_ascii_of_string s).
Proof.
  induction s as [|d s IH]; simpl.
  - split; [discriminate | tauto].
  - destruct (Ascii.eqb_spec d c) as [->|Hne].
    + split; auto.
    + rewrite IH. split; [auto | intros [Heq|Hin]; [contradiction | exact Hin]].
Qed.

Lemma prefix_empty s : String.prefix EmptyString s = true.
Proof. destruct s; reflexivity. Qed.

(** Searching for a one-letter string is searching for the letter. *)
Lemma strstr_letter s c :
  non_null (g_strstr_len s (String c EmptyString)) = strchr s c.
Proof.
  induction s as [|d s IH]; simpl; [reflexivity|].
  destruct (ascii_dec c d) as [->|Hne].
  - rewrite prefix_empty, Ascii.eqb_refl. reflexivity.
  - destruct (Ascii.eqb_spec d c) as [->|_]; [contradiction | exact IH].
Qed.

Lemma prefix_strchr needle : forall haystack c,
  String.prefix needle haystack = true ->
  strchr needle c = true -> strchr haystack c = true.
Proof.
  induction needle as [|a needle IH]; intros [|b haystack] c; simpl;
    try discriminate.
  destruct (ascii_dec a b) as [->|_]; [|discriminate].
  intros Hp. destruct (Ascii.eqb b c); [reflexivity | eauto].
Qed.

(** A string found inside another brings no new letter. *)
Lemma strstr_strchr haystack : forall needle c,
  non_null (g_strstr_len haystack needle) = true ->
  strchr needle c = true -> strchr haystack c = true.
Proof.
  induction haystack as [|b haystack IH]; intros needle c.
  - simpl. destruct needle; simpl; [intros _ H; exact H | discriminate].
  - cbn [g_strstr_len].
    destruct (String.prefix needle (String b haystack)) eqn:Hp.
    + intros _. apply prefix_strchr. exact Hp.
    + intros Hs Hc. simpl. destruct (Ascii.eqb b c); [reflexivity | eauto].
Qed.

(** The empty string is found in every string. *)
Lemma strstr_empty haystack : g_strstr_len haystack EmptyString = Some haystack.
Proof. destruct haystack; reflexivity. Qed.

(** Letters left by [g_strdelimit]: those of the string that are not
    delimiters (the filler aside). *)
Lemma strchr_strdelimit s d x c :
  x <> c ->
  strchr (g_strdelimit s d x) c = strchr s c && negb (strchr d c).
Proof.
  intros Hx. induction s as [|a s IH]; simpl; [reflexivity|].
  destruct (Ascii.eqb_spec a c) as [->|Hac].
  - destruct (strchr d c) eqn:Hd; simpl.
    + destruct (Ascii.eqb_spec x c); [contradiction|].
      rewrite IH. apply andb_false_r.
    + rewrite Ascii.eqb_refl. reflexivity.
  - destruct (strchr d a).
    + destruct (Ascii.eqb_spec x c); [contradiction | exact IH].
    + destruct (Ascii.eqb_spec a c); [contradiction | exact IH].
Qed.

Lemma compare_same s : String.compare s s = Eq.
Proof.
  induction s as [|a s IH]; simpl; [reflexivity|].
  unfold Ascii.compare. rewrite N.compare_refl. exact IH.
Qed.

Lemma g_strcmp0_eq s1 s2 : Z.eqb (g_strcmp0 s1 s2) 0 = true <-> s1 = s2.
Proof.
  unfold g_strcmp0. split.
  - destruct (String.compare s1 s2) eqn:Hc; simpl; try discriminate.
    intros _. apply String.compare_eq_iff. exact Hc.
  - intros ->. rewrite compare_same. reflexivity.
Qed.

Lemma g_strcmp0_refl s : Z.eqb (g_strcmp0 s s) 0 = true.
Proof. apply g_strcmp0_eq. reflexivity. Qed.

End Strings.

(** ** The owner list *)

Section OwnerList.

Variable P : media_owner -> bool.

Lemma lookup_owner_In p l o :
  lookup_owner p l = Some o -> In o l /\ addr o = p.
Proof.
  induction l as [|x l IH]; simpl; [discriminate|].
  destruct (Nat.eqb_spec (addr x) p) as [Heq|Hne].
  - intros [= ->]. auto.
  - intros H. destruct (IH H). auto.
Qed.

Lemma lookup_owner_update p f l o :
  addr (f o) = addr o ->
  lookup_owner p l = Some o ->
  lookup_owner p (update_owner p f l) = Some (f o).
Proof.
  intros Hf. induction l as [|x l IH]; simpl; [discriminate|].
  destruct (Nat.eqb_spec (addr x) p) as [Heq|Hne].
  - intros [= ->]. simpl. rewrite Hf, Heq, Nat.eqb_refl. reflexivity.
  - intros H. simpl. destruct (Nat.eqb_spec (addr x) p); [contradiction | auto].
Qed.

Lemma g_slist_remove_update p f l :
  (forall o, addr (f o) = addr o) ->
  g_slist_remove (update_owner p f l) p = g_slist_remove l p.
Proof.
  intros Hf. induction l as [|x l IH]; simpl; [reflexivity|].
  destruct (Nat.eqb_spec (addr x) p) as [Heq|Hne]; simpl.
  - rewrite Hf, Heq, Nat.eqb_refl. reflexivity.
  - destruct (Nat.eqb_spec (addr x) p); [contradiction | congruence].
Qed.

(** Removing an owner takes its own tally off the count. *)
Lemma tally_remove p l o :
  lookup_owner p l = Some o ->
  length (filter P l) = length (filter P (g_slist_remove l p)) + tally P o.
Proof.
  unfold tally. induction l as [|x l IH]; simpl; [discriminate|].
  destruct (Nat.eqb_spec (addr x) p) as [Heq|Hne].
  - intros [= ->]. destruct (P o); simpl; lia.
  - intros H. specialize (IH H). simpl. destruct (P x); simpl; lia.
Qed.

(** Writing through an owner pointer trades the old tally for the new. *)
Lemma tally_update p f l o :
  lookup_owner p l = Some o ->
  length (filter P (update_owner p f l)) + tally P o =
  length (filter P l) + tally P (f o).
Proof.
  unfold tally. induction l as [|x l IH]; simpl; [discriminate|].
  destruct (Nat.eqb_spec (addr x) p) as [Heq|Hne].
  - intros [= ->]. simpl. destruct (P o), (P (f o)); simpl; lia.
  - intros H. specialize (IH H). simpl. destruct (P x); simpl; lia.
Qed.

Lemma tally_append l o :
  length (filter P (l ++ [o])) = length (filter P l) + tally P o.
Proof.
  unfold tally. rewrite filter_app, length_app. simpl.
  destruct (P o); reflexivity.
Qed.

End OwnerList.

Section Allocation.

Lemma below_lookup n l : below n l -> lookup_owner n l = None.
Proof.
  induction 1 as [|x l Hx _ IH]; simpl; [reflexivity|].
  destruct (Nat.eqb_spec (addr x) n); [lia | exact IH].
Qed.

Lemma below_remove n l p : below n l -> below n (g_slist_remove l p).
Proof.
  induction 1 as [|x l Hx Hl IH]; simpl; [constructor|].
  destruct (Nat.eqb (addr x) p); [exact Hl | constructor; assumption].
Qed.

Lemma below_update n l p f :
  (forall o, addr (f o) = addr o) ->
  below n l -> below n (update_owner p f l).
Proof.
  intros Hf. induction 1 as [|x l Hx Hl IH]; simpl; [constructor|].
  destruct (Nat.eqb (addr x) p); constructor; try assumption.
  rewrite Hf. exact Hx.
Qed.

Lemma below_weaken n m l : n <= m -> below n l -> below m l.
Proof.
  intros Hnm. unfold below. apply Forall_impl. intros o Ho. lia.
Qed.

(** A freshly allocated owner is the one its address reaches. *)
Lemma lookup_owner_fresh n l o :
  below n l -> addr o = n -> lookup_owner n (l ++ [o]) = Some o.
Proof.
  induction 1 as [|x l Hx _ IH]; simpl; intros Ho.
  - rewrite Ho, Nat.eqb_refl. reflexivity.
  - destruct (Nat.eqb_spec (addr x) n); [lia | auto].
Qed.

Lemma update_owner_fresh n l o f :
  below n l -> addr o = n -> update_owner n f (l ++ [o]) = l ++ [f o].
Proof.
  induction 1 as [|x l Hx _ IH]; simpl; intros Ho.
  - rewrite Ho, Nat.eqb_refl. reflexivity.
  - destruct (Nat.eqb_spec (addr x) n); [lia | rewrite IH; auto].
Qed.

Lemma g_slist_remove_fresh n l o :
  below n l -> addr o = n -> g_slist_remove (l ++ [o]) n = l.
Proof.
  induction 1 as [|x l Hx _ IH]; simpl; intros Ho.
  - rewrite Ho, Nat.eqb_refl. reflexivity.
  - destruct (Nat.eqb_spec (addr x) n); [lia | rewrite IH; auto].
Qed.

Lemma find_owner_in_lookup l client p :
  find_owner_in l client = Some p -> exists o, lookup_owner p l = Some o.
Proof.
  induction l as [|x l IH]; simpl; [discriminate|].
  destruct (Z.eqb (g_strcmp0 (name x) client) 0).
  - intros [= <-]. rewrite Nat.eqb_refl. eauto.
  - intros H. destruct (Nat.eqb (addr x) p); eauto.
Qed.

End Allocation.

(** ** Owner teardown in closed form *)

Ltac run_monad :=
  unfold bind, ret, get, modify, emit, when, deref, assign, fault,
    g_idle_add, g_new0,
    set_read_lock, set_write_lock, set_owners, set_in_use, set_session,
    set_channel;
  cbn.

Section Teardown.

Lemma media_owner_remove_eq w p o :
  lookup_owner p (owners (transport w)) = Some o ->
  media_owner_remove p w = Some (tt, torn_down o w).
Proof.
  intros Hl. destruct (lookup_owner_In _ _ _ Hl) as [_ Ha].
  unfold media_owner_remove, media_transport_release, acquire_request_free,
    suspend, cancel, suspend_a2dp, suspend_headset, cancel_a2dp,
    cancel_headset, torn_down, without_owner, teardown_calls,
    last_owner_calls, free_calls, holds, cancel_call, unlock_call.
  destruct w as [[s l f i om d rl wl iu op] cs idl b]. cbn in Hl.
  destruct o as [a [[rm rid]|] nm acc wt]; cbn in Ha; subst a; cbn.
  all: destruct (non_null (g_strstr_len acc "r")) eqn:Hr;
    destruct (non_null (g_strstr_len acc "w")) eqn:Hw;
    destruct (N.eqb wt 0) eqn:Hwt;
    try destruct (N.eqb rid 0) eqn:Hid; destruct op.
  all: repeat (progress (run_monad; rewrite ?Hl, ?Hr, ?Hw, ?Hwt, ?Hid; cbn)).
  all: rewrite ?g_slist_remove_update by reflexivity.
  all: destruct (g_slist_remove l p); cbn.
  all: rewrite ?andb_true_r, ?andb_false_r, <- ?app_assoc, ?app_nil_r;
    reflexivity.
Qed.

Lemma media_owner_exit_eq w p o :
  lookup_owner p (owners (transport w)) = Some o ->
  media_owner_exit p w = Some (tt, exited o w).
Proof.
  intros Hl. destruct (lookup_owner_In _ _ _ Hl) as [_ Ha].
  pose proof (lookup_owner_update p (set_watch 0%N) _ o eq_refl Hl) as Hl1.
  pose proof (lookup_owner_update p (set_request None) _ (set_watch 0%N o)
                eq_refl Hl1) as Hl2.
  unfold media_owner_exit, acquire_request_free, cancel, cancel_a2dp,
    cancel_headset, exited, exit_calls, free_calls, cancel_call.
  destruct w as [[s l f i om d rl wl iu op] cs idl b]. cbn in Hl, Hl1, Hl2.
  destruct o as [a [[rm rid]|] nm acc wt]; cbn in Ha; subst a; cbn in *.
  all: try destruct (N.eqb rid 0) eqn:Hid; destruct op.
  all: repeat (progress (run_monad; rewrite ?Hl, ?Hl1, ?Hid; cbn)).
  all: erewrite media_owner_remove_eq by (cbn; first [exact Hl2 | exact Hl1]).
  all: unfold torn_down, without_owner, teardown_calls, last_owner_calls,
         holds, unlock_call; cbn.
  all: rewrite ?g_slist_remove_update by reflexivity.
  all: rewrite <- ?app_assoc; reflexivity.
Qed.

Lemma suspend_eq w :
  suspend w =
  Some (tt, mkWorld (set_in_use false (transport w))
              (calls w ++ [unlock_call (transport w)]) (idle w) (brk w)).
Proof.
  unfold suspend, suspend_a2dp, suspend_headset, unlock_call.
  destruct w as [[s l f i om d rl wl iu op] cs idl b].
  destruct op; reflexivity.
Qed.

End Teardown.

(** ** Well-formed worlds and the lock invariant *)

Section Invariant.

Lemma Inv_locks_agree w : Inv w -> locks_agree w.
Proof.
  unfold Inv, inv_core, locks_agree, holders.
  intros (_ & _ & Hr & Hw). rewrite Hr, Hw.
  destruct (read_lock (transport w)), (write_lock (transport w)); simpl;
    repeat split; intros; try reflexivity; try discriminate.
Qed.

Lemma map_addr_update p f l :
  (forall o, addr (f o) = addr o) ->
  map addr (update_owner p f l) = map addr l.
Proof.
  intros Hf. induction l as [|x l IH]; simpl; [reflexivity|].
  destruct (Nat.eqb (addr x) p); simpl; [rewrite Hf | rewrite IH]; reflexivity.
Qed.

Lemma NoDup_remove p l :
  NoDup (map addr l) -> NoDup (map addr (g_slist_remove l p)).
Proof.
  induction l as [|x l IH]; simpl; [auto|].
  intros Hnd. inversion Hnd as [|? ? Hx Hl]; subst.
  destruct (Nat.eqb (addr x) p); [exact Hl|].
  simpl. constructor; [|auto].
  intros Hin. apply Hx. clear -Hin.
  induction l as [|y l IH]; simpl in *; [contradiction|].
  destruct (Nat.eqb (addr y) p); simpl in *; tauto.
Qed.

(** Once removed, the address reaches no owner. *)
Lemma lookup_owner_removed p l :
  NoDup (map addr l) -> lookup_owner p (g_slist_remove l p) = None.
Proof.
  induction l as [|x l IH]; simpl; [reflexivity|].
  intros Hnd. inversion Hnd as [|? ? Hx Hl]; subst.
  destruct (Nat.eqb_spec (addr x) p) as [Heq|Hne].
  - destruct (lookup_owner p l) as [o|] eqn:Ho; [|reflexivity].
    destruct (lookup_owner_In _ _ _ Ho) as [Hin Ha].
    exfalso. apply Hx. rewrite Heq, <- Ha. apply in_map. exact Hin.
  - simpl. destruct (Nat.eqb_spec (addr x) p); [contradiction | auto].
Qed.

Lemma inv_remove n l rl wl p o :
  inv_core n l rl wl ->
  lookup_owner p l = Some o ->
  inv_core n (g_slist_remove l p)
           (rl && negb (holds "r" o)) (wl && negb (holds "w" o)).
Proof.
  intros (Hb & Hnd & Hr & Hw) Hl.
  pose proof (tally_remove (holds "r") p l o Hl) as Tr.
  pose proof (tally_remove (holds "w") p l o Hl) as Tw.
  unfold tally in Tr, Tw.
  repeat split.
  - apply below_remove. exact Hb.
  - apply NoDup_remove. exact Hnd.
  - destruct (holds "r" o), rl; simpl in *; lia.
  - destruct (holds "w" o), wl; simpl in *; lia.
Qed.

Lemma inv_update n l rl wl p f :
  (forall o, addr (f o) = addr o) ->
  (forall o, accesstype (f o) = accesstype o) ->
  inv_core n l rl wl ->
  inv_core n (update_owner p f l) rl wl.
Proof.
  intros Ha Hacc (Hb & Hnd & Hr & Hw).
  assert (Hcount : forall letter,
    length (filter (holds letter) (update_owner p f l)) =
    length (filter (holds letter) l)).
  { intros letter. destruct (lookup_owner p l) as [o|] eqn:Hl.
    - pose proof (tally_update (holds letter) p f l o Hl) as T.
      unfold tally, holds in T. rewrite Hacc in T. unfold holds.
      destruct (non_null (g_strstr_len (accesstype o) letter)); lia.
    - clear -Hl. induction l as [|x l IH]; simpl in *; [reflexivity|].
      destruct (Nat.eqb (addr x) p); [discriminate|].
      simpl. destruct (holds letter x); simpl; rewrite IH by exact Hl;
        reflexivity. }
  repeat split.
  - apply below_update; assumption.
  - rewrite map_addr_update; assumption.
  - rewrite Hcount. exact Hr.
  - rewrite Hcount. exact Hw.
Qed.

Lemma holds_letter c o :
  holds (String c EmptyString) o = strchr (accesstype o) c.
Proof. apply strstr_letter. Qed.

(** A partial release gives up exactly the letters it names. *)
Lemma inv_partial n l rl wl p o a :
  inv_core n l rl wl ->
  lookup_owner p l = Some o ->
  non_null (g_strstr_len (accesstype o) a) = true ->
  inv_core n
    (update_owner p
       (fun o => set_accesstype (g_strdelimit (accesstype o) a " ") o) l)
    (if non_null (g_strstr_len a "r") then false else rl)
    (if non_null (g_strstr_len a "w") then false else wl).
Proof.
  intros (Hb & Hnd & Hr & Hw) Hl Hsub.
  set (f := fun o => set_accesstype (g_strdelimit (accesstype o) a " ") o).
  assert (Hcount : forall c rl',
    " "%char <> c ->
    length (filter (holds (String c EmptyString)) l) = Nat.b2n rl' ->
    length (filter (holds (String c EmptyString)) (update_owner p f l)) =
    Nat.b2n (if non_null (g_strstr_len a (String c EmptyString))
             then false else rl')).
  { intros c rl' Hc Hlen.
    pose proof (tally_update (holds (String c EmptyString)) p f l o Hl) as T.
    unfold tally in T. rewrite !holds_letter in T. unfold f in T at 2.
    cbn [accesstype set_accesstype] in T.
    rewrite strchr_strdelimit in T by exact Hc.
    rewrite strstr_letter.
    pose proof (strstr_strchr (accesstype o) a c Hsub) as Hin.
    destruct (strchr a c); simpl in *.
    - rewrite Hin in T by reflexivity. rewrite andb_false_r in T.
      destruct rl'; simpl in *; lia.
    - rewrite andb_true_r in T. destruct (strchr (accesstype o) c); lia. }
  repeat split.
  - apply below_update; [reflexivity | exact Hb].
  - rewrite map_addr_update; [exact Hnd | reflexivity].
  - apply Hcount; [discriminate | exact Hr].
  - apply Hcount; [discriminate | exact Hw].
Qed.

(** A granted acquire adds one holder to each lock it takes. *)
Lemma inv_append n l rl wl rq nm a wt :
  inv_core n l rl wl ->
  non_null (g_strstr_len a "r") && rl = false ->
  non_null (g_strstr_len a "w") && wl = false ->
  inv_core (S n) (l ++ [mkOwner n rq nm a wt])
    (if non_null (g_strstr_len a "r") then true else rl)
    (if non_null (g_strstr_len a "w") then true else wl).
Proof.
  intros (Hb & Hnd & Hr & Hw) Cr Cw.
  repeat split.
  - apply Forall_app. split.
    + apply (below_weaken n); [lia | exact Hb].
    + constructor; [simpl; lia | constructor].
  - rewrite map_app. simpl. apply NoDup_app; [exact Hnd | constructor; [intros []|constructor] |].
    intros x Hx [<-|[]]. apply in_map_iff in Hx. destruct Hx as (o & Ho & Hin).
    unfold below in Hb. rewrite Forall_forall in Hb. specialize (Hb o Hin). lia.
  - rewrite tally_append. unfold tally.
    change (holds "r" (mkOwner n rq nm a wt)) with (non_null (g_strstr_len a "r")).
    destruct (non_null (g_strstr_len a "r")), rl; simpl in *; try discriminate; lia.
  - rewrite tally_append. unfold tally.
    change (holds "w" (mkOwner n rq nm a wt)) with (non_null (g_strstr_len a "w")).
    destruct (non_null (g_strstr_len a "w")), wl; simpl in *; try discriminate; lia.
Qed.
End Invariant.

(** ** The handlers, one by one *)

Arguments resume : simpl never.
Arguments media_owner_remove : simpl never.
Arguments media_transport_acquire : simpl never.
Arguments media_transport_release : simpl never.
Arguments media_transport_set_fd : simpl never.
Arguments media_owner_exit : simpl never.

Section Handlers.

(** [resume] always returns; it touches the session, [in_use] and the
    profile layer, nothing else. *)
Lemma resume_frame e p w :
  exists tk s' iu' cs,
    resume e p w =
      Some (tk, mkWorld (set_in_use iu' (set_session s' (transport w)))
                  (calls w ++ cs) (idle w) (brk w)) /\
    only_resume_calls cs /\
    N.eqb tk 0 = sync_failure (transport w) e.
Proof.
  unfold resume, resume_a2dp, resume_headset, sync_failure, only_resume_calls.
  destruct w as [[s l f i om d rl wl iu op] cs idl b].
  destruct e as [wt gs lk tk].
  destruct op, s as [s|], gs as [gs|], iu, lk; run_monad;
    rewrite <- ?app_assoc; cbn;
    do 4 eexists; (split; [reflexivity|]); split;
    repeat constructor; cbn; rewrite ?orb_false_r; reflexivity.
Qed.

Lemma media_transport_acquire_eq a w :
  media_transport_acquire a w =
  Some (grantable a (transport w),
        if grantable a (transport w)
        then mkWorld (take_locks a (transport w)) (calls w) (idle w) (brk w)
        else w).
Proof.
  unfold media_transport_acquire, grantable, take_locks.
  destruct w as [[s l f i om d rl wl iu op] cs idl b].
  run_monad.
  destruct (non_null (g_strstr_len a "r")), (non_null (g_strstr_len a "w")),
    rl, wl; reflexivity.
Qed.

Lemma grantable_locks a t :
  grantable a t = true ->
  non_null (g_strstr_len a "r") && read_lock t = false /\
  non_null (g_strstr_len a "w") && write_lock t = false.
Proof.
  unfold grantable.
  destruct (non_null (g_strstr_len a "r") && read_lock t),
    (non_null (g_strstr_len a "w") && write_lock t); simpl;
    intros; try discriminate; auto.
Qed.

Lemma acquire_Inv e m w :
  Inv w ->
  exists r w', acquire e m w = Some (r, w') /\ Inv w' /\ idle w' = idle w.
Proof.
  intros HI. unfold acquire.
  destruct (args m) as [a|]; [|do 2 eexists; split; [reflexivity|auto]].
  unfold media_transport_find_owner. run_monad.
  destruct (find_owner_in (owners (transport w)) (sender m));
    [do 2 eexists; split; [reflexivity|auto]|].
  rewrite media_transport_acquire_eq.
  destruct (grantable a (transport w)) eqn:Hg; cbn;
    [|do 2 eexists; split; [reflexivity|auto]].
  destruct (grantable_locks _ _ Hg) as [Cr Cw].
  unfold media_owner_create. run_monad.
  match goal with
  | |- context [resume e ?p ?w1] =>
      destruct (resume_frame e p w1) as (tk & s' & iu' & cs & Hres & _ & _);
      rewrite Hres
  end.
  pose proof (inv_append _ _ _ _ None (sender m) a (watch_tag e) HI Cr Cw) as HI1.
  destruct HI as (Hb & _).
  run_monad. unfold take_locks; cbn.
  rewrite (lookup_owner_fresh (brk w)) by (auto; reflexivity). cbn.
  rewrite (update_owner_fresh (brk w)) by (auto; reflexivity).
  unfold set_request; cbn.
  pose proof (inv_update _ _ _ _ (brk w) (set_request (Some (mkReq m tk)))
                (fun _ => eq_refl) (fun _ => eq_refl) HI1) as HI2.
  rewrite (update_owner_fresh (brk w)) in HI2 by (auto; reflexivity).
  unfold set_request in HI2; cbn in HI2.
  destruct (N.eqb tk 0).
  - erewrite media_owner_remove_eq
      by (cbn; apply (lookup_owner_fresh (brk w)); auto).
    do 2 eexists; split; [reflexivity|]. split; [|reflexivity].
    unfold Inv, torn_down, without_owner. cbn.
    eapply (inv_remove _ _ _ _ (brk w)) in HI2;
      [|apply (lookup_owner_fresh (brk w)); [exact Hb|reflexivity]].
    exact HI2.
  - do 2 eexists; split; [reflexivity|]. split; [|reflexivity].
    exact HI2.
Qed.

Lemma media_transport_release_eq a w :
  media_transport_release a w =
  Some (true, mkWorld (drop_locks a (transport w)) (calls w) (idle w) (brk w)).
Proof.
  unfold media_transport_release, drop_locks.
  destruct w as [[s l f i om d rl wl iu op] cs idl b].
  destruct (non_null (g_strstr_len a "r")), (non_null (g_strstr_len a "w"));
    reflexivity.
Qed.

Lemma Inv_torn_down w p o :
  Inv w -> lookup_owner p (owners (transport w)) = Some o -> Inv (torn_down o w).
Proof.
  intros HI Hl. destruct (lookup_owner_In _ _ _ Hl) as [_ <-].
  exact (inv_remove _ _ _ _ _ _ HI Hl).
Qed.

Lemma Inv_exited w p o :
  Inv w -> lookup_owner p (owners (transport w)) = Some o -> Inv (exited o w).
Proof. exact (Inv_torn_down w p o). Qed.

Lemma release_Inv m w :
  Inv w ->
  exists r w', release m w = Some (r, w') /\ Inv w' /\ idle w' = idle w.
Proof.
  intros HI. unfold release.
  destruct (args m) as [a|]; [|do 2 eexists; split; [reflexivity|auto]].
  unfold media_transport_find_owner. run_monad.
  destruct (find_owner_in (owners (transport w)) (sender m)) as [p|] eqn:Hf;
    [|do 2 eexists; split; [reflexivity|auto]].
  destruct (find_owner_in_lookup _ _ _ Hf) as [o Hl]. rewrite Hl. cbn.
  destruct (Z.eqb (g_strcmp0 (accesstype o) a) 0); cbn.
  - rewrite (media_owner_remove_eq _ _ _ Hl).
    do 2 eexists; split; [reflexivity|]. split; [|reflexivity].
    eapply Inv_torn_down; eauto.
  - destruct (non_null (g_strstr_len (accesstype o) a)) eqn:Hsub;
      [|do 2 eexists; split; [reflexivity|auto]].
    cbn. rewrite media_transport_release_eq. run_monad. rewrite Hl. cbn.
    do 2 eexists; split; [reflexivity|]. split; [|reflexivity].
    exact (inv_partial _ _ _ _ _ _ _ HI Hl Hsub).
Qed.

Lemma disconnect_Inv client w :
  Inv w ->
  exists w', disconnect client w = Some (tt, w') /\ Inv w' /\ idle w' = idle w.
Proof.
  intros HI. unfold disconnect, media_transport_find_owner. run_monad.
  destruct (find_owner_in (owners (transport w)) client) as [p|] eqn:Hf;
    [|eexists; split; [reflexivity|auto]].
  destruct (find_owner_in_lookup _ _ _ Hf) as [o Hl]. rewrite Hl. cbn.
  destruct (N.eqb (watch o) 0); cbn; [eexists; split; [reflexivity|auto]|].
  rewrite (media_owner_exit_eq _ _ _ Hl).
  eexists; split; [reflexivity|]. split; [|reflexivity].
  eapply Inv_exited; eauto.
Qed.

Lemma media_transport_set_fd_eq f' i' o' w :
  media_transport_set_fd f' i' o' w =
  Some (true,
        if Z.eqb (fd (transport w)) f' then w
        else mkWorld (set_channel f' i' o' (transport w))
               (calls w ++ [emit_property_changed "IMTU" i';
                            emit_property_changed "OMTU" o'])
               (idle w) (brk w)).
Proof.
  unfold media_transport_set_fd. run_monad.
  destruct (Z.eqb (fd (transport w)) f'); [reflexivity|].
  rewrite <- app_assoc. reflexivity.
Qed.

Lemma a2dp_resume_complete_spec r p w o req :
  lookup_owner p (owners (transport w)) = Some o ->
  request o = Some req ->
  exists w' cs,
    a2dp_resume_complete r p w = Some (tt, w') /\
    same_ownership
      (update_owner p (set_request (Some (mkReq (msg req) 0%N)))
         (owners (transport w))) w w' /\
    idle w' = idle w ++ (if a2dp_failed r then [p] else []) /\
    calls w' = calls w ++ cs /\
    Forall (fun c => is_teardown_call c = false) cs.
Proof.
  intros Hl Hreq. unfold a2dp_resume_complete, a2dp_failed, same_ownership.
  run_monad. rewrite Hl. cbn. rewrite Hreq. run_monad. rewrite Hl. cbn.
  destruct r as [er [[[[f' i'] o']|]|] rp]; cbn; destruct er; cbn.
  all: rewrite ?media_transport_set_fd_eq; cbn.
  all: try destruct (Z.eqb (fd (transport w)) f'); try destruct rp; cbn.
  all: do 2 eexists; (split; [reflexivity|]); cbn.
  all: repeat split; try reflexivity.
  all: try (rewrite <- ?app_assoc; reflexivity).
  all: try (symmetry; apply app_nil_r).
  all: repeat constructor.
Qed.

Lemma headset_resume_complete_spec r p w o req :
  lookup_owner p (owners (transport w)) = Some o ->
  request o = Some req ->
  exists w1 cs,
    headset_resume_complete r p w =
      Some (tt, if headset_failed r then torn_down (cleared o req) w1 else w1) /\
    same_ownership
      (update_owner p (set_request (Some (mkReq (msg req) 0%N)))
         (owners (transport w))) w w1 /\
    idle w1 = idle w /\
    calls w1 = calls w ++ cs /\
    Forall (fun c => is_teardown_call c = false) cs.
Proof.
  intros Hl Hreq.
  pose proof (lookup_owner_update p (set_request (Some (mkReq (msg req) 0%N)))
                _ o eq_refl Hl) as Hl1.
  unfold headset_resume_complete, headset_failed, same_ownership.
  run_monad. rewrite Hl. cbn. rewrite Hreq. run_monad. rewrite Hl. cbn.
  destruct r as [dv f' rp]; cbn.
  destruct dv; cbn; [destruct (Z.ltb f' 0); cbn|].
  all: rewrite ?media_transport_set_fd_eq; cbn.
  all: try destruct (Z.eqb (fd (transport w)) f'); try destruct rp; cbn.
  all: try (erewrite media_owner_remove_eq by (cbn; exact Hl1)).
  all: do 2 eexists; (split; [reflexivity|]); cbn.
  all: repeat split; try reflexivity.
  all: try (rewrite <- ?app_assoc; reflexivity).
  all: try (symmetry; apply app_nil_r).
  all: repeat constructor.
Qed.

Lemma media_owner_remove_dangling p w :
  lookup_owner p (owners (transport w)) = None ->
  media_owner_remove p w = None.
Proof.
  intros Hl. unfold media_owner_remove. run_monad. rewrite Hl. reflexivity.
Qed.

Lemma same_ownership_Inv p f w w' :
  (forall o, addr (f o) = addr o) ->
  (forall o, accesstype (f o) = accesstype o) ->
  same_ownership (update_owner p f (owners (transport w))) w w' ->
  Inv w -> Inv w'.
Proof.
  unfold same_ownership, Inv.
  intros Ha Hacc (-> & -> & -> & _ & _ & _ & ->) HI.
  apply inv_update; assumption.
Qed.

(** Every event of the loop that returns keeps the invariant. *)
Lemma step_Inv ev w w' :
  Inv w -> step ev w = Some (tt, w') -> Inv w'.
Proof.
  intros HI. destruct ev as [e m|m|client|r p|r p|]; cbn [step].
  - destruct (acquire_Inv e m w HI) as (r & w1 & Hrun & HI1 & _).
    unfold bind. rewrite Hrun. destruct r; cbn; intros [= <-]; exact HI1.
  - destruct (release_Inv m w HI) as (r & w1 & Hrun & HI1 & _).
    unfold bind. rewrite Hrun. destruct r; cbn; intros [= <-]; exact HI1.
  - destruct (disconnect_Inv client w HI) as (w1 & Hrun & HI1 & _).
    rewrite Hrun. intros [= <-]. exact HI1.
  - destruct (lookup_owner p (owners (transport w))) as [o|] eqn:Hl.
    + destruct (request o) as [req|] eqn:Hreq.
      * destruct (a2dp_resume_complete_spec r p w o req Hl Hreq)
          as (w1 & cs & Hrun & Hsame & _).
        rewrite Hrun. intros [= <-].
        eapply same_ownership_Inv; [| |exact Hsame|exact HI]; reflexivity.
      * unfold a2dp_resume_complete. run_monad. rewrite Hl. cbn.
        rewrite Hreq. discriminate.
    + unfold a2dp_resume_complete. run_monad. rewrite Hl. discriminate.
  - destruct (lookup_owner p (owners (transport w))) as [o|] eqn:Hl.
    + destruct (request o) as [req|] eqn:Hreq.
      * destruct (headset_resume_complete_spec r p w o req Hl Hreq)
          as (w1 & cs & Hrun & Hsame & _).
        rewrite Hrun. intros [= <-].
        assert (HI1 : Inv w1)
          by (eapply same_ownership_Inv; [| |exact Hsame|exact HI]; reflexivity).
        destruct (headset_failed r); [|exact HI1].
        eapply Inv_torn_down; [exact HI1|].
        destruct Hsame as (-> & _).
        exact (lookup_owner_update p
                 (set_request (Some (mkReq (msg req) 0%N))) _ o eq_refl Hl).
      * unfold headset_resume_complete. run_monad. rewrite Hl. cbn.
        rewrite Hreq. discriminate.
    + unfold headset_resume_complete. run_monad. rewrite Hl. discriminate.
  - unfold run_idle. destruct (idle w) as [|p rest]; [intros [= <-]; exact HI|].
    unfold remove_owner, bind.
    destruct (lookup_owner p (owners (transport w))) as [o|] eqn:Hl.
    + erewrite media_owner_remove_eq by (cbn; exact Hl).
      cbn. intros [= <-]. exact (Inv_torn_down w p o HI Hl).
    + rewrite media_owner_remove_dangling by (cbn; exact Hl). discriminate.
Qed.

Lemma run_Inv evs : forall w w',
  Inv w -> run evs w = Some (tt, w') -> Inv w'.
Proof.
  induction evs as [|ev evs IH]; intros w w' HI; cbn [run].
  - intros [= <-]. exact HI.
  - unfold bind. destruct (step ev w) as [[[] w1]|] eqn:Hs; [|discriminate].
    intros Hrun. eapply IH; [|exact Hrun]. eapply step_Inv; eauto.
Qed.

(** Client operations always return. *)
Lemma client_step_returns ev w :
  client_op ev = true -> Inv w -> exists w', step ev w = Some (tt, w').
Proof.
  intros Hc HI. destruct ev as [e m|m|client|r p|r p|]; try discriminate;
    cbn [step].
  - destruct (acquire_Inv e m w HI) as (r & w1 & Hrun & _).
    unfold bind. rewrite Hrun. destruct r; eexists; reflexivity.
  - destruct (release_Inv m w HI) as (r & w1 & Hrun & _).
    unfold bind. rewrite Hrun. destruct r; eexists; reflexivity.
  - destruct (disconnect_Inv client w HI) as (w1 & Hrun & _). eauto.
Qed.

Lemma client_run_returns evs : forall w,
  forallb client_op evs = true -> Inv w ->
  exists w', run evs w = Some (tt, w') /\ Inv w'.
Proof.
  induction evs as [|ev evs IH]; intros w Hc HI; cbn [run].
  - eexists; split; [reflexivity | exact HI].
  - cbn in Hc. apply andb_true_iff in Hc. destruct Hc as [Hev Hevs].
    destruct (client_step_returns ev w Hev HI) as [w1 Hs].
    unfold bind. rewrite Hs. apply IH; [exact Hevs|].
    eapply step_Inv; eauto.
Qed.

Lemma Inv_boot t uuid registered :
  media_transport_create uuid registered = Some t -> Inv (boot t).
Proof.
  unfold media_transport_create.
  destruct uuid, registered; intros [= <-]; cbn;
    repeat split; constructor.
Qed.
End Handlers.

(** ** Counting calls *)

Section Counting.

Lemma msg_eqb_refl m : msg_eqb m m = true.
Proof.
  unfold msg_eqb. rewrite Nat.eqb_refl, String.eqb_refl.
  destruct (args m); [apply String.eqb_refl | reflexivity].
Qed.

Lemma count_app p l1 l2 : count p (l1 ++ l2) = count p l1 + count p l2.
Proof. unfold count. rewrite filter_app, length_app. reflexivity. Qed.

Lemma count_none p l :
  Forall (fun c => p c = false) l -> count p l = 0.
Proof.
  unfold count. induction 1 as [|c l Hc _ IH]; simpl; [reflexivity|].
  rewrite Hc. exact IH.
Qed.

Lemma only_resume_calls_count p cs :
  (forall c, is_resume c = true -> p c = false) ->
  only_resume_calls cs -> count p cs = 0.
Proof.
  intros Hp Hcs. apply count_none. revert Hcs. apply Forall_impl. exact Hp.
Qed.

Lemma count_last_owner_calls p t a :
  (forall c, is_unlock c = true -> p c = false) ->
  count p (last_owner_calls t a) = 0.
Proof.
  intros Hp. unfold last_owner_calls, unlock_call.
  destruct (g_slist_remove (owners t) a); [|reflexivity].
  destruct (ops t); unfold count; simpl; rewrite Hp; reflexivity.
Qed.

Lemma count_error_free_calls m t req :
  count (is_error_reply_to m) (free_calls t req) = 0.
Proof.
  unfold free_calls, cancel_call.
  destruct (N.eqb (id req) 0), (ops t); reflexivity.
Qed.

Lemma count_cancel_free_calls t req :
  count is_cancel (free_calls t req) = if N.eqb (id req) 0 then 0 else 1.
Proof.
  unfold free_calls, cancel_call.
  destruct (N.eqb (id req) 0), (ops t); reflexivity.
Qed.

(** Teardown of an owner with a request answers that request once and
    cancels a ticket that is still set. *)
Lemma teardown_calls_pending t o req :
  request o = Some req ->
  count (is_error_reply_to (msg req)) (teardown_calls t o) = 1 /\
  count is_cancel (teardown_calls t o) = (if N.eqb (id req) 0 then 0 else 1) /\
  count is_fd_reply (teardown_calls t o) = 0 /\
  count is_property_changed (teardown_calls t o) = 0.
Proof.
  intros Hreq. unfold teardown_calls. rewrite Hreq.
  rewrite !count_app.
  change (g_dbus_send_message (g_dbus_create_error (msg req) strerror_EIO)
            :: free_calls t req)
    with ([g_dbus_send_message (g_dbus_create_error (msg req) strerror_EIO)]
            ++ free_calls t req).
  rewrite !count_app, !count_last_owner_calls
    by (intros []; simpl; congruence).
  rewrite count_error_free_calls, count_cancel_free_calls.
  unfold count at 2. simpl. rewrite msg_eqb_refl.
  unfold free_calls, cancel_call.
  destruct (N.eqb (watch o) 0), (N.eqb (id req) 0), (ops t); repeat split.
Qed.

(** A disconnect answers nothing and cancels a ticket that is still set. *)
Lemma exit_calls_pending t o req :
  request o = Some req ->
  count (is_error_reply_to (msg req)) (exit_calls t o) = 0 /\
  count is_cancel (exit_calls t o) = (if N.eqb (id req) 0 then 0 else 1).
Proof.
  intros Hreq. unfold exit_calls. rewrite Hreq.
  rewrite !count_app, !count_last_owner_calls
    by (intros []; simpl; congruence).
  rewrite count_error_free_calls, count_cancel_free_calls. lia.
Qed.

End Counting.

(** ** Acquire, Release, publication and suspend *)

Section Methods.

Lemma find_owner_in_some l o :
  In o l -> exists p, find_owner_in l (name o) = Some p.
Proof.
  induction l as [|x l IH]; simpl; [contradiction|].
  intros [->|Hin].
  - rewrite g_strcmp0_refl. eauto.
  - destruct (Z.eqb (g_strcmp0 (name x) (name o)) 0); eauto.
Qed.

Lemma find_owner_in_update p f l client :
  (forall o, addr (f o) = addr o) ->
  (forall o, name (f o) = name o) ->
  find_owner_in (update_owner p f l) client = find_owner_in l client.
Proof.
  intros Ha Hn. induction l as [|x l IH]; simpl; [reflexivity|].
  destruct (Nat.eqb (addr x) p); simpl.
  - rewrite Hn, Ha. reflexivity.
  - rewrite IH. reflexivity.
Qed.

(** C8.  A client that already has an owner on the transport is refused a
    second Acquire whatever access type it asks for: the method returns
    the "Permission denied" error and the world (locks, owners, channel,
    calls made on collaborators) is exactly what it was. *)
Theorem acquire_twice_denied e m a w o :
  args m = Some a ->
  In o (owners (transport w)) ->
  name o = sender m ->
  acquire e m w = Some (Some (g_dbus_create_error m Permission_denied), w).
Proof.
  intros Hargs Hin Hname.
  destruct (find_owner_in_some _ _ Hin) as [p Hf]. rewrite Hname in Hf.
  unfold acquire, media_transport_find_owner. rewrite Hargs.
  run_monad. rewrite Hf. reflexivity.
Qed.

Lemma grantable_no_letters a t :
  ~ In "r"%char (list_ascii_of_string a) ->
  ~ In "w"%char (list_ascii_of_string a) ->
  grantable a t = false.
Proof.
  intros Hr Hw. unfold grantable. rewrite !strstr_letter.
  destruct (strchr a "r") eqn:Er; [apply strchr_In in Er; contradiction|].
  destruct (strchr a "w") eqn:Ew; [apply strchr_In in Ew; contradiction|].
  reflexivity.
Qed.

(** C9.  An Acquire whose access string contains neither the letter r
    nor the letter w is refused with the "Permission denied" error and
    has no side effect: the world after it is the world before it, so no
    lock bit is set, no owner is created and no resume call is made. *)
Theorem acquire_without_letters_denied e m a w :
  args m = Some a ->
  ~ In "r"%char (list_ascii_of_string a) ->
  ~ In "w"%char (list_ascii_of_string a) ->
  acquire e m w = Some (Some (g_dbus_create_error m Permission_denied), w).
Proof.
  intros Hargs Hr Hw.
  unfold acquire, media_transport_find_owner. rewrite Hargs.
  run_monad.
  destruct (find_owner_in (owners (transport w)) (sender m)); [reflexivity|].
  rewrite media_transport_acquire_eq, (grantable_no_letters a _ Hr Hw).
  reflexivity.
Qed.

(** C4, as stated, fails.  Publishing a new descriptor whose MTU pair
    equals the stored one emits two change notifications although no MTU
    field changed; publishing a changed MTU under the stored descriptor
    emits none and does not store it. *)
Lemma set_fd_notifies_unchanged_mtu :
  fd (transport streaming) = 5%Z /\
  (exists w',
     media_transport_set_fd 6 48%N 48%N streaming = Some (true, w') /\
     mtu_changes (transport streaming) 48%N 48%N = 0 /\
     count is_property_changed (calls w') =
       count is_property_changed (calls streaming) + 2) /\
  (exists w',
     media_transport_set_fd 5 672%N 48%N streaming = Some (true, w') /\
     mtu_changes (transport streaming) 672%N 48%N = 1 /\
     count is_property_changed (calls w') =
       count is_property_changed (calls streaming) /\
     imtu (transport w') = 48%N).
Proof.
  split; [reflexivity|].
  split; eexists; (split; [vm_compute; reflexivity|]); vm_compute;
    repeat split.
Qed.

(** C4, amended.  Publishing a descriptor equal to the stored one emits
    no notification and changes nothing; publishing a different
    descriptor stores it with its MTU pair and emits exactly two
    notifications, IMTU then OMTU, carrying the new values, whether or
    not they differ from the stored ones. *)
Theorem set_fd_notifies_on_new_fd fd' imtu' omtu' w :
  exists w',
    media_transport_set_fd fd' imtu' omtu' w = Some (true, w') /\
    (fd (transport w) = fd' -> w' = w) /\
    (fd (transport w) <> fd' ->
       fd (transport w') = fd' /\
       imtu (transport w') = imtu' /\
       omtu (transport w') = omtu' /\
       calls w' = calls w ++ [emit_property_changed "IMTU" imtu';
                              emit_property_changed "OMTU" omtu']).
Proof.
  rewrite media_transport_set_fd_eq.
  destruct (Z.eqb_spec (fd (transport w)) fd') as [Heq|Hne];
    eexists; (split; [reflexivity|]); split; intros H;
    try contradiction; try reflexivity.
  repeat split.
Qed.

(** C10.  When removing an owner empties the owner list, the transport's
    suspend operation runs, whatever [in_use] was: the last call logged is
    the profile unlock and [in_use] ends false.  Suspend itself always
    makes the unlock call and clears [in_use]. *)
Theorem last_owner_removal_suspends w p o :
  lookup_owner p (owners (transport w)) = Some o ->
  (exists w',
     media_owner_remove p w = Some (tt, w') /\
     (owners (transport w') = [] ->
        in_use (transport w') = false /\
        exists cs, calls w' = calls w ++ cs ++ [unlock_call (transport w)])) /\
  (forall w0, exists w0',
     suspend w0 = Some (tt, w0') /\
     in_use (transport w0') = false /\
     calls w0' = calls w0 ++ [unlock_call (transport w0)]).
Proof.
  intros Hl. split.
  - rewrite (media_owner_remove_eq _ _ _ Hl). eexists; split; [reflexivity|].
    destruct (lookup_owner_In _ _ _ Hl) as [_ Ha].
    unfold torn_down, without_owner, teardown_calls, last_owner_calls. cbn.
    intros Hempty. rewrite Hempty. split; [reflexivity|].
    exists ((if N.eqb (watch o) 0 then [] else [g_dbus_remove_watch (watch o)]) ++
            match request o with
            | Some req =>
                g_dbus_send_message (g_dbus_create_error (msg req) strerror_EIO)
                  :: free_calls (transport w) req
            | None => []
            end).
    rewrite <- app_assoc. reflexivity.
  - intros w0. rewrite suspend_eq. eexists; repeat split.
Qed.

Lemma g_strdelimit_nothing s x : g_strdelimit s EmptyString x = s.
Proof. induction s as [|c s IH]; simpl; [|rewrite IH]; reflexivity. Qed.

Lemma update_owner_same p f l :
  (forall o, f o = o) -> update_owner p f l = l.
Proof.
  intros Hf. induction l as [|x l IH]; simpl; [reflexivity|].
  destruct (Nat.eqb (addr x) p); [rewrite Hf | rewrite IH]; reflexivity.
Qed.

Lemma owner_of_inv client w o :
  owner_of client w = Some o ->
  exists p, find_owner_in (owners (transport w)) client = Some p /\
            lookup_owner p (owners (transport w)) = Some o.
Proof.
  unfold owner_of.
  destruct (find_owner_in (owners (transport w)) client) as [p|];
    [eauto | discriminate].
Qed.

Lemma release_partial m a w p o :
  args m = Some a ->
  find_owner_in (owners (transport w)) (sender m) = Some p ->
  lookup_owner p (owners (transport w)) = Some o ->
  accesstype o <> a ->
  non_null (g_strstr_len (accesstype o) a) = true ->
  release m w = Some (Some (g_dbus_create_reply m), partly_released a p w).
Proof.
  intros Hargs Hf Hl Hne Hsub.
  unfold release, media_transport_find_owner. rewrite Hargs.
  run_monad. rewrite Hf. cbn. rewrite Hl. cbn.
  destruct (Z.eqb (g_strcmp0 (accesstype o) a) 0) eqn:Heq;
    [apply g_strcmp0_eq in Heq; contradiction|].
  rewrite Hsub. cbn. rewrite media_transport_release_eq. run_monad.
  rewrite Hl. reflexivity.
Qed.

Lemma owner_of_partly_released a client p o w :
  find_owner_in (owners (transport w)) client = Some p ->
  lookup_owner p (owners (transport w)) = Some o ->
  owner_of client (partly_released a p w) =
  Some (set_accesstype (g_strdelimit (accesstype o) a " ") o).
Proof.
  intros Hf Hl. unfold owner_of, partly_released. cbn.
  rewrite find_owner_in_update by reflexivity. rewrite Hf.
  exact (lookup_owner_update p
           (fun o => set_accesstype (g_strdelimit (accesstype o) a " ") o)
           _ o eq_refl Hl).
Qed.

(** C3, at the empty string.  A Release with the empty access string by
    a client whose owner holds some access is not refused: it is answered
    with an empty success reply and changes nothing. *)
Theorem release_empty_string_accepted m w o :
  args m = Some EmptyString ->
  owner_of (sender m) w = Some o ->
  accesstype o <> EmptyString ->
  release m w = Some (Some (g_dbus_create_reply m), w).
Proof.
  intros Hargs Ho Hne. destruct (owner_of_inv _ _ _ Ho) as (p & Hf & Hl).
  rewrite (release_partial m EmptyString w p o Hargs Hf Hl Hne)
    by (rewrite strstr_empty; reflexivity).
  unfold partly_released, drop_locks. cbn.
  rewrite update_owner_same.
  - destruct w as [[s l f i om d rl wl iu op] cs idl b]. reflexivity.
  - intros [a rq nm acc wt]. unfold set_accesstype. cbn.
    rewrite g_strdelimit_nothing. reflexivity.
Qed.

(** C1, on the code.  For a client whose owner holds "rw": Release "r"
    leaves the owner on the list with write access only, the read lock
    clear and the write lock as it was.  The following Release "w" clears
    the write lock but does not remove the owner (its access string is
    now two blanks) and does not suspend: no call is made on any
    collaborator and [in_use] keeps its value. *)
Theorem release_r_then_w_keeps_owner w client n1 n2 o :
  owner_of client w = Some o ->
  accesstype o = "rw" ->
  exists w1 w2,
    release (mkMsg n1 client (Some "r")) w =
      Some (Some (g_dbus_create_reply (mkMsg n1 client (Some "r"))), w1) /\
    owner_of client w1 = Some (set_accesstype " w" o) /\
    read_lock (transport w1) = false /\
    write_lock (transport w1) = write_lock (transport w) /\
    release (mkMsg n2 client (Some "w")) w1 =
      Some (Some (g_dbus_create_reply (mkMsg n2 client (Some "w"))), w2) /\
    owner_of client w2 = Some (set_accesstype "  " o) /\
    read_lock (transport w2) = false /\
    write_lock (transport w2) = false /\
    in_use (transport w2) = in_use (transport w) /\
    calls w2 = calls w.
Proof.
  intros Ho Hacc. destruct (owner_of_inv _ _ _ Ho) as (p & Hf & Hl).
  pose proof (owner_of_partly_released "r" client p o w Hf Hl) as Ho1.
  rewrite Hacc in Ho1. cbn in Ho1.
  destruct (owner_of_inv _ _ _ Ho1) as (p1 & Hf1 & Hl1).
  pose proof (owner_of_partly_released "w" client p1 _ _ Hf1 Hl1) as Ho2.
  cbn in Ho2.
  exists (partly_released "r" p w), (partly_released "w" p1 (partly_released "r" p w)).
  repeat split; try assumption.
  - apply (release_partial _ "r" w p o); try assumption; try reflexivity;
      rewrite Hacc; [discriminate | reflexivity].
  - apply (release_partial _ "w" _ p1 (set_accesstype " w" o));
      try assumption; try reflexivity; discriminate.
Qed.

End Methods.

(** ** What Release refuses *)

Section Refusals.

(** X16.  A Release answered with "Permission denied" changes
    nothing. *)
Lemma release_refused_unchanged m w w' :
  release m w = Some (Some (g_dbus_create_error m Permission_denied), w') ->
  w' = w.
Proof.
  unfold release, media_transport_find_owner.
  destruct (args m) as [a|]; [|discriminate].
  run_monad.
  destruct (find_owner_in (owners (transport w)) (sender m)) as [p|];
    [|intros [= <-]; reflexivity].
  destruct (lookup_owner p (owners (transport w))) as [o|] eqn:Hl;
    [|discriminate].
  cbn.
  destruct (Z.eqb (g_strcmp0 (accesstype o) a) 0); cbn.
  - rewrite (media_owner_remove_eq _ _ _ Hl). discriminate.
  - destruct (non_null (g_strstr_len (accesstype o) a)); cbn.
    + rewrite media_transport_release_eq. run_monad. rewrite Hl. discriminate.
    + intros [= <-]. reflexivity.
Qed.

(** X17.  A Release naming a letter that the owner's access string does
    not contain is refused with "Permission denied" and changes
    nothing. *)
Lemma release_foreign_letter_refused m a c w o :
  args m = Some a ->
  owner_of (sender m) w = Some o ->
  In c (list_ascii_of_string a) ->
  ~ In c (list_ascii_of_string (accesstype o)) ->
  release m w = Some (Some (g_dbus_create_error m Permission_denied), w).
Proof.
  intros Hargs Ho Hin Hout. destruct (owner_of_inv _ _ _ Ho) as (p & Hf & Hl).
  apply strchr_In in Hin.
  assert (Hsub : non_null (g_strstr_len (accesstype o) a) = false).
  { destruct (non_null (g_strstr_len (accesstype o) a)) eqn:Hs; [|reflexivity].
    exfalso. apply Hout. apply strchr_In.
    exact (strstr_strchr _ _ _ Hs Hin). }
  assert (Hne : Z.eqb (g_strcmp0 (accesstype o) a) 0 = false).
  { destruct (Z.eqb (g_strcmp0 (accesstype o) a) 0) eqn:Heq; [|reflexivity].
    apply g_strcmp0_eq in Heq. exfalso. apply Hout. rewrite Heq.
    apply strchr_In. exact Hin. }
  unfold release, media_transport_find_owner. rewrite Hargs.
  run_monad. rewrite Hf. cbn. rewrite Hl. cbn. rewrite Hne, Hsub. reflexivity.
Qed.

End Refusals.

(** ** Resume failure, pending requests and deferred teardown *)

Section SyncFailure.

(** [acquire] whose resume returns no ticket: the world is that of a
    teardown of the owner just created. *)
Lemma acquire_sync_failure e m a w :
  below (brk w) (owners (transport w)) ->
  args m = Some a ->
  find_owner_in (owners (transport w)) (sender m) = None ->
  grantable a (transport w) = true ->
  sync_failure (transport w) e = true ->
  exists s' iu' rcs,
    only_resume_calls rcs /\
    let t1 := set_in_use iu' (set_session s'
                (set_owners (owners (transport w) ++
                               [new_owner e m a (brk w) 0%N])
                   (take_locks a (transport w)))) in
    acquire e m w =
      Some (None,
            torn_down (new_owner e m a (brk w) 0%N)
              (mkWorld t1
                 (calls w ++ g_dbus_add_disconnect_watch (sender m) (brk w) :: rcs)
                 (idle w) (S (brk w)))).
Proof.
  intros Hb Hargs Hf Hg Hfail.
  unfold acquire, media_transport_find_owner. rewrite Hargs.
  run_monad. rewrite Hf. cbn.
  rewrite media_transport_acquire_eq, Hg. cbn.
  unfold media_owner_create. run_monad.
  match goal with
  | |- context [resume e ?p ?w1] =>
      destruct (resume_frame e p w1) as (tk & s' & iu' & cs & Hres & Hcs & Htk);
      rewrite Hres
  end.
  cbn in Htk. unfold sync_failure in Htk, Hfail. cbn in Htk.
  rewrite Hfail in Htk. apply N.eqb_eq in Htk. subst tk.
  exists s', iu', cs. split; [exact Hcs|].
  run_monad. unfold take_locks; cbn.
  rewrite (lookup_owner_fresh (brk w)) by (auto; reflexivity). cbn.
  rewrite (update_owner_fresh (brk w)) by (auto; reflexivity).
  erewrite media_owner_remove_eq
    by (cbn; apply (lookup_owner_fresh (brk w)); auto).
  unfold new_owner, set_request. cbn. rewrite <- app_assoc. reflexivity.
Qed.

Lemma find_owner_in_none l client :
  (forall o, In o l -> name o <> client) -> find_owner_in l client = None.
Proof.
  induction l as [|x l IH]; simpl; intros H; [reflexivity|].
  destruct (Z.eqb (g_strcmp0 (name x) client) 0) eqn:Heq.
  - apply g_strcmp0_eq in Heq. exfalso. apply (H x); auto.
  - apply IH. intros o Ho. apply H. auto.
Qed.

(** C6.  When an Acquire passes validation and the transport's resume
    returns no ticket, the owner just created is torn down before the
    method returns: the I/O error reply is sent on the pending request
    (once), nothing is cancelled, the lock bits just taken are clear
    again, the owner list is what it was, and no channel descriptor is
    stored, announced or sent for that request. *)
Theorem acquire_resume_failure_tears_down e m a w :
  below (brk w) (owners (transport w)) ->
  args m = Some a ->
  (forall o, In o (owners (transport w)) -> name o <> sender m) ->
  grantable a (transport w) = true ->
  sync_failure (transport w) e = true ->
  exists w' cs,
    acquire e m w = Some (None, w') /\
    calls w' = calls w ++ cs /\
    In (g_dbus_send_message (g_dbus_create_error m strerror_EIO)) cs /\
    count (is_error_reply_to m) cs = 1 /\
    count is_cancel cs = 0 /\
    count is_fd_reply cs = 0 /\
    count is_property_changed cs = 0 /\
    owners (transport w') = owners (transport w) /\
    read_lock (transport w') = read_lock (transport w) /\
    write_lock (transport w') = write_lock (transport w) /\
    (non_null (g_strstr_len a "r") = true -> read_lock (transport w') = false) /\
    (non_null (g_strstr_len a "w") = true -> write_lock (transport w') = false) /\
    fd (transport w') = fd (transport w) /\
    imtu (transport w') = imtu (transport w) /\
    omtu (transport w') = omtu (transport w) /\
    idle w' = idle w.
Proof.
  intros Hb Hargs Hnone Hg Hfail.
  pose proof (find_owner_in_none _ _ Hnone) as Hf.
  destruct (acquire_sync_failure e m a w Hb Hargs Hf Hg Hfail)
    as (s' & iu' & rcs & Hrcs & Hrun).
  cbv zeta in Hrun.
  destruct (grantable_locks _ _ Hg) as [Cr Cw].
  set (o := new_owner e m a (brk w) 0%N) in *.
  set (t1 := set_in_use iu' _) in Hrun.
  exists (torn_down o (mkWorld t1
            (calls w ++ g_dbus_add_disconnect_watch (sender m) (brk w) :: rcs)
            (idle w) (S (brk w)))),
         ((g_dbus_add_disconnect_watch (sender m) (brk w) :: rcs)
            ++ teardown_calls t1 o).
  destruct (teardown_calls_pending t1 o (mkReq m 0%N) eq_refl)
    as (Herr & Hcan & Hfd & Hpc).
  cbn [msg id] in Herr, Hcan.
  assert (Hpre : forall p, (forall c, is_resume c = true -> p c = false) ->
            p (g_dbus_add_disconnect_watch (sender m) (brk w)) = false ->
            count p (g_dbus_add_disconnect_watch (sender m) (brk w) :: rcs) = 0).
  { intros p Hp Hw.
    change (count p ([g_dbus_add_disconnect_watch (sender m) (brk w)] ++ rcs) = 0).
    rewrite count_app, (only_resume_calls_count p rcs Hp Hrcs).
    unfold count. simpl. rewrite Hw. reflexivity. }
  split; [exact Hrun|].
  split; [cbn; rewrite <- app_assoc; reflexivity|].
  split.
  { apply in_or_app. right. unfold teardown_calls. cbn [request o new_owner].
    apply in_or_app. right. apply in_or_app. left. left. reflexivity. }
  split; [rewrite count_app, Herr, Hpre; [reflexivity | intros []; simpl; congruence | reflexivity]|].
  split; [rewrite count_app, Hcan, Hpre; [reflexivity | intros []; simpl; congruence | reflexivity]|].
  split; [rewrite count_app, Hfd, Hpre; [reflexivity | intros []; simpl; congruence | reflexivity]|].
  split; [rewrite count_app, Hpc, Hpre; [reflexivity | intros []; simpl; congruence | reflexivity]|].
  unfold torn_down, without_owner, t1, o, new_owner, take_locks, holds. cbn.
  rewrite (g_slist_remove_fresh (brk w)) by (auto; reflexivity).
  destruct (non_null (g_strstr_len a "r")), (non_null (g_strstr_len a "w")),
    (read_lock (transport w)), (write_lock (transport w));
    simpl in Cr, Cw; try discriminate; cbn; repeat split; intros; congruence.
Qed.

End SyncFailure.

Section Pending.

(** C7, as stated, fails on client disconnect: the pending request of a
    client that vanishes is cancelled and freed, and no error reply is
    sent on it. *)
Lemma disconnect_sends_no_error_reply :
  exists w',
    run [Acquire resume_pending acquire_r; Disconnect ":1.42"]
        (boot (new_transport a2dp_ops)) = Some (tt, w') /\
    owners (transport w') = [] /\
    count is_cancel (calls w') = 1 /\
    count (is_error_reply_to acquire_r) (calls w') = 0.
Proof.
  eexists. split; [vm_compute; reflexivity|].
  vm_compute. repeat split.
Qed.

(** C7, amended.  For an owner whose request is still there: a forced
    teardown ([media_owner_remove]) sends exactly one error reply on the
    request; a client disconnect ([media_owner_exit]) sends none.  Either
    way the profile's cancel is called once, for the request's ticket,
    when the ticket is still set, and not at all when the completion
    callback has already cleared it; afterwards the owner and its request
    are gone, so nothing can cancel the ticket again. *)
Theorem pending_request_destroyed w p o req :
  NoDup (map addr (owners (transport w))) ->
  lookup_owner p (owners (transport w)) = Some o ->
  request o = Some req ->
  (exists w' cs,
     media_owner_remove p w = Some (tt, w') /\
     calls w' = calls w ++ cs /\
     count (is_error_reply_to (msg req)) cs = 1 /\
     count is_cancel cs = (if N.eqb (id req) 0 then 0 else 1) /\
     (id req <> 0%N -> In (cancel_call (transport w) (id req)) cs) /\
     lookup_owner p (owners (transport w')) = None) /\
  (exists w' cs,
     media_owner_exit p w = Some (tt, w') /\
     calls w' = calls w ++ cs /\
     count (is_error_reply_to (msg req)) cs = 0 /\
     count is_cancel cs = (if N.eqb (id req) 0 then 0 else 1) /\
     (id req <> 0%N -> In (cancel_call (transport w) (id req)) cs) /\
     lookup_owner p (owners (transport w')) = None).
Proof.
  intros Hnd Hl Hreq. destruct (lookup_owner_In _ _ _ Hl) as [_ Ha].
  destruct (teardown_calls_pending (transport w) o req Hreq) as (E1 & C1 & _).
  destruct (exit_calls_pending (transport w) o req Hreq) as (E2 & C2).
  assert (Hin : id req <> 0%N ->
            In (cancel_call (transport w) (id req)) (free_calls (transport w) req)).
  { intros Hid. unfold free_calls.
    destruct (N.eqb_spec (id req) 0); [contradiction | left; reflexivity]. }
  split.
  - exists (torn_down o w), (teardown_calls (transport w) o).
    rewrite (media_owner_remove_eq _ _ _ Hl).
    repeat split; try assumption.
    + intros Hid. unfold teardown_calls. rewrite Hreq.
      apply in_or_app. right. apply in_or_app. left. right. auto.
    + cbn. rewrite Ha. apply lookup_owner_removed. exact Hnd.
  - exists (exited o w), (exit_calls (transport w) o).
    rewrite (media_owner_exit_eq _ _ _ Hl).
    repeat split; try assumption.
    + intros Hid. unfold exit_calls. rewrite Hreq.
      apply in_or_app. left. auto.
    + cbn. rewrite Ha. apply lookup_owner_removed. exact Hnd.
Qed.

End Pending.

Section Deferral.

Lemma foreach_owner_remove_all l : forall w,
  owners (transport w) = l ->
  exists w',
    foreach_owner_remove (map addr l) w = Some (tt, w') /\
    owners (transport w') = [] /\
    idle w' = idle w.
Proof.
  induction l as [|x l IH]; intros w Hl; cbn [map foreach_owner_remove].
  - eexists; repeat split; assumption.
  - assert (Hx : lookup_owner (addr x) (owners (transport w)) = Some x)
      by (rewrite Hl; simpl; rewrite Nat.eqb_refl; reflexivity).
    unfold bind. rewrite (media_owner_remove_eq _ _ _ Hx).
    destruct (IH (torn_down x w)) as (w' & Hrun & Hempty & Hidle).
    { cbn. rewrite Hl. simpl. rewrite Nat.eqb_refl. reflexivity. }
    exists w'. repeat split; assumption.
Qed.

Lemma media_transport_free_all w :
  exists w',
    media_transport_free w = Some (tt, w') /\
    owners (transport w') = [] /\
    idle w' = idle w.
Proof.
  unfold media_transport_free. run_monad.
  apply foreach_owner_remove_all. reflexivity.
Qed.

(** C5.  When the A2DP resume callback fails, the owner is not torn down
    in the callback: it stays on the list with its locks, no teardown call
    is made, and a [remove_owner] idle source is queued, which removes the
    owner when the loop next runs it.  Every other teardown runs within
    its event and queues nothing: the headset resume callback failing, a
    full Release, a client disconnect, the destruction of the transport,
    and an Acquire whose resume returns no ticket. *)
Theorem teardown_deferred_only_after_a2dp_failure w p o req :
  Inv w ->
  lookup_owner p (owners (transport w)) = Some o ->
  request o = Some req ->
  (forall r, a2dp_failed r = true ->
     exists w' cs,
       a2dp_resume_complete r p w = Some (tt, w') /\
       idle w' = idle w ++ [p] /\
       lookup_owner p (owners (transport w')) = Some (cleared o req) /\
       read_lock (transport w') = read_lock (transport w) /\
       write_lock (transport w') = write_lock (transport w) /\
       calls w' = calls w ++ cs /\
       Forall (fun c => is_teardown_call c = false) cs /\
       (idle w = [] ->
        exists w'',
          step Idle w' = Some (tt, w'') /\
          idle w'' = [] /\
          lookup_owner p (owners (transport w'')) = None)) /\
  (forall r, headset_failed r = true ->
     exists w',
       headset_resume_complete r p w = Some (tt, w') /\
       idle w' = idle w /\
       lookup_owner p (owners (transport w')) = None) /\
  (forall m,
     find_owner_in (owners (transport w)) (sender m) = Some p ->
     args m = Some (accesstype o) ->
     exists w',
       release m w = Some (Some (g_dbus_create_reply m), w') /\
       idle w' = idle w /\
       lookup_owner p (owners (transport w')) = None) /\
  (exists w',
     media_owner_exit p w = Some (tt, w') /\
     idle w' = idle w /\
     lookup_owner p (owners (transport w')) = None) /\
  (exists w',
     media_transport_free w = Some (tt, w') /\
     idle w' = idle w /\
     owners (transport w') = []) /\
  (forall e m a,
     args m = Some a ->
     (forall o', In o' (owners (transport w)) -> name o' <> sender m) ->
     grantable a (transport w) = true ->
     sync_failure (transport w) e = true ->
     exists w',
       acquire e m w = Some (None, w') /\
       idle w' = idle w /\
       owners (transport w') = owners (transport w)).
Proof.
  intros HI Hl Hreq. destruct (lookup_owner_In _ _ _ Hl) as [_ Ha].
  pose proof HI as (_ & Hnd & _).
  pose proof (lookup_owner_update p (set_request (Some (mkReq (msg req) 0%N)))
                _ o eq_refl Hl) as Hl1.
  assert (Hnd1 : NoDup (map addr (update_owner p
                   (set_request (Some (mkReq (msg req) 0%N)))
                   (owners (transport w)))))
    by (rewrite map_addr_update; [exact Hnd | reflexivity]).
  repeat apply conj.
  - intros r Hr.
    destruct (a2dp_resume_complete_spec r p w o req Hl Hreq)
      as (w' & cs & Hrun & Hsame & Hidle & Hcalls & Hcs).
    rewrite Hr in Hidle.
    destruct Hsame as (Hown & Hrl & Hwl & _).
    exists w', cs. repeat split; try assumption.
    + rewrite Hown. exact Hl1.
    + intros Hempty. rewrite Hempty in Hidle. cbn in Hidle.
      cbn [step]. unfold run_idle. rewrite Hidle.
      unfold remove_owner, bind.
      erewrite media_owner_remove_eq by (cbn; rewrite Hown; exact Hl1).
      eexists. split; [reflexivity|]. split; [reflexivity|].
      cbn. rewrite Hown. unfold cleared. cbn. rewrite Ha.
      apply lookup_owner_removed. exact Hnd1.
  - intros r Hr.
    destruct (headset_resume_complete_spec r p w o req Hl Hreq)
      as (w1 & cs & Hrun & Hsame & Hidle & _).
    rewrite Hr in Hrun. destruct Hsame as (Hown & _).
    eexists. split; [exact Hrun|]. split; [exact Hidle|].
    cbn. rewrite Hown. unfold cleared. cbn. rewrite Ha.
    apply lookup_owner_removed. exact Hnd1.
  - intros m Hf Hargs.
    unfold release, media_transport_find_owner. rewrite Hargs.
    run_monad. rewrite Hf. cbn. rewrite Hl. cbn.
    rewrite g_strcmp0_refl. cbn.
    rewrite (media_owner_remove_eq _ _ _ Hl).
    eexists. split; [reflexivity|]. split; [reflexivity|].
    cbn. rewrite Ha. apply lookup_owner_removed. exact Hnd.
  - rewrite (media_owner_exit_eq _ _ _ Hl).
    eexists. split; [reflexivity|]. split; [reflexivity|].
    cbn. rewrite Ha. apply lookup_owner_removed. exact Hnd.
  - destruct (media_transport_free_all w) as (w' & Hrun & Hempty & Hidle).
    exists w'. auto.
  - intros e m a Hargs Hnone Hg Hfail.
    pose proof HI as (Hb & _).
    destruct (acquire_sync_failure e m a w Hb Hargs
                (find_owner_in_none _ _ Hnone) Hg Hfail)
      as (s' & iu' & rcs & _ & Hrun).
    cbv zeta in Hrun. eexists. split; [exact Hrun|].
    split; [reflexivity|]. cbn.
    apply (g_slist_remove_fresh (brk w)); [exact Hb | reflexivity].
Qed.

(** C2.  After any sequence of Acquire, Release and client-disconnect
    events on a freshly created transport (whatever the collaborators
    answer), the run returns and the read lock is set exactly when one
    owner on the list holds read access, the write lock exactly when one
    holds write access. *)
Theorem locks_agree_after_client_ops uuid registered t evs :
  media_transport_create uuid registered = Some t ->
  forallb client_op evs = true ->
  exists w, run evs (boot t) = Some (tt, w) /\ locks_agree w.
Proof.
  intros Hcreate Hevs.
  destruct (client_run_returns evs (boot t) Hevs (Inv_boot _ _ _ Hcreate))
    as (w & Hrun & HI).
  exists w. split; [exact Hrun | apply Inv_locks_agree; exact HI].
Qed.

(** The same agreement holds after any events of the loop, completions
    and idle sources included, whenever the run returns. *)
Lemma locks_agree_after_any_run uuid registered t evs w :
  media_transport_create uuid registered = Some t ->
  run evs (boot t) = Some (tt, w) ->
  locks_agree w.
Proof.
  intros Hcreate Hrun. apply Inv_locks_agree.
  exact (run_Inv evs _ _ (Inv_boot _ _ _ Hcreate) Hrun).
Qed.

End Deferral.

(** ** The theorems at concrete worlds *)

Section Scenarios.

(** The two releases on the world left by Acquire "rw" and a completed
    resume. *)
Lemma release_r_then_w_keeps_owner_witness :
  owner_of ":1.42" holding_rw = Some owner_rw /\
  accesstype owner_rw = "rw" /\
  exists w1 w2,
    release (mkMsg 2 ":1.42" (Some "r")) holding_rw =
      Some (Some (g_dbus_create_reply (mkMsg 2 ":1.42" (Some "r"))), w1) /\
    release (mkMsg 3 ":1.42" (Some "w")) w1 =
      Some (Some (g_dbus_create_reply (mkMsg 3 ":1.42" (Some "w"))), w2) /\
    owner_of ":1.42" w2 = Some (set_accesstype "  " owner_rw) /\
    calls w2 = calls holding_rw.
Proof.
  split; [reflexivity|]. split; [reflexivity|].
  destruct (release_r_then_w_keeps_owner holding_rw ":1.42" 2 3 owner_rw
              eq_refl eq_refl)
    as (w1 & w2 & H1 & _ & _ & _ & H2 & H3 & _ & _ & _ & H4).
  exists w1, w2. repeat split; assumption.
Defined.

(** The locks agree after [short_session] on a new A2DP transport. *)
Lemma locks_agree_after_client_ops_witness :
  media_transport_create A2DP_SINK_UUID true = Some (new_transport a2dp_ops) /\
  forallb client_op short_session = true /\
  exists w,
    run short_session (boot (new_transport a2dp_ops)) = Some (tt, w) /\
    locks_agree w.
Proof.
  split; [reflexivity|]. split; [reflexivity|].
  apply (locks_agree_after_client_ops A2DP_SINK_UUID true
           (new_transport a2dp_ops) short_session); reflexivity.
Defined.

(** Release of the empty string by the holder of "rw". *)
Lemma release_empty_string_accepted_witness :
  args (mkMsg 2 ":1.42" (Some EmptyString)) = Some EmptyString /\
  owner_of ":1.42" holding_rw = Some owner_rw /\
  accesstype owner_rw <> EmptyString /\
  release (mkMsg 2 ":1.42" (Some EmptyString)) holding_rw =
    Some (Some (g_dbus_create_reply (mkMsg 2 ":1.42" (Some EmptyString))), holding_rw).
Proof.
  assert (Hne : accesstype owner_rw <> EmptyString) by discriminate.
  split; [reflexivity|]. split; [reflexivity|]. split; [exact Hne|].
  exact (release_empty_string_accepted (mkMsg 2 ":1.42" (Some EmptyString)) holding_rw
           owner_rw eq_refl eq_refl Hne).
Defined.

(** A failed resume of the pending request of [awaiting_r]: deferred for
    A2DP, inline for the headset callback. *)
Lemma teardown_deferred_only_after_a2dp_failure_witness :
  Inv awaiting_r /\
  lookup_owner 0 (owners (transport awaiting_r)) = Some owner_r /\
  request owner_r = Some (mkReq acquire_r 11%N) /\
  (exists w' cs,
     a2dp_resume_complete (mkA2dpDone true None false) 0 awaiting_r = Some (tt, w') /\
     idle w' = [0] /\
     calls w' = calls awaiting_r ++ cs /\
     Forall (fun c => is_teardown_call c = false) cs) /\
  (exists w',
     headset_resume_complete (mkHeadsetDone false 0 false) 0 awaiting_r = Some (tt, w') /\
     idle w' = [] /\
     lookup_owner 0 (owners (transport w')) = None).
Proof.
  assert (HI : Inv awaiting_r).
  { unfold Inv, inv_core, below. vm_compute.
    repeat split; repeat constructor. intros []. }
  split; [exact HI|]. split; [reflexivity|]. split; [reflexivity|].
  destruct (teardown_deferred_only_after_a2dp_failure awaiting_r 0 owner_r
              (mkReq acquire_r 11%N) HI eq_refl eq_refl)
    as (Ha2dp & Hheadset & _).
  split.
  - destruct (Ha2dp (mkA2dpDone true None false) eq_refl)
      as (w' & cs & Hrun & Hidle & _ & _ & _ & Hcalls & Hcs & _).
    exists w', cs. repeat split; assumption.
  - destruct (Hheadset (mkHeadsetDone false 0 false) eq_refl)
      as (w' & Hrun & Hidle & Hgone).
    exists w'. repeat split; assumption.
Defined.

(** Acquire "rw" on a new A2DP transport when no signalling session can
    be had. *)
Lemma acquire_resume_failure_tears_down_witness :
  below (brk (boot (new_transport a2dp_ops)))
        (owners (transport (boot (new_transport a2dp_ops)))) /\
  args acquire_rw = Some "rw" /\
  grantable "rw" (new_transport a2dp_ops) = true /\
  sync_failure (new_transport a2dp_ops) no_session = true /\
  exists w' cs,
    acquire no_session acquire_rw (boot (new_transport a2dp_ops)) = Some (None, w') /\
    calls w' = cs /\
    count (is_error_reply_to acquire_rw) cs = 1 /\
    owners (transport w') = [] /\
    read_lock (transport w') = false /\
    write_lock (transport w') = false /\
    fd (transport w') = (-1)%Z.
Proof.
  assert (Hb : below (brk (boot (new_transport a2dp_ops)))
                 (owners (transport (boot (new_transport a2dp_ops)))))
    by constructor.
  split; [exact Hb|]. split; [reflexivity|]. split; [reflexivity|].
  split; [reflexivity|].
  destruct (acquire_resume_failure_tears_down no_session acquire_rw "rw"
              (boot (new_transport a2dp_ops)) Hb eq_refl
              (fun o (H : In o []) => match H with end) eq_refl eq_refl)
    as (w' & cs & Hrun & Hcalls & _ & Herr & _ & _ & _ & Hown & Hr & Hw & _ & _ & Hfd & _).
  exists w', cs. repeat split; assumption.
Defined.

(** Teardown and disconnect of the owner of [awaiting_r], whose request
    holds ticket 11. *)
Lemma pending_request_destroyed_witness :
  NoDup (map addr (owners (transport awaiting_r))) /\
  lookup_owner 0 (owners (transport awaiting_r)) = Some owner_r /\
  request owner_r = Some (mkReq acquire_r 11%N) /\
  (exists w' cs,
     media_owner_remove 0 awaiting_r = Some (tt, w') /\
     calls w' = calls awaiting_r ++ cs /\
     count (is_error_reply_to acquire_r) cs = 1 /\
     count is_cancel cs = 1) /\
  (exists w' cs,
     media_owner_exit 0 awaiting_r = Some (tt, w') /\
     calls w' = calls awaiting_r ++ cs /\
     count (is_error_reply_to acquire_r) cs = 0 /\
     count is_cancel cs = 1).
Proof.
  assert (Hnd : NoDup (map addr (owners (transport awaiting_r))))
    by (repeat constructor; intros []).
  split; [exact Hnd|]. split; [reflexivity|]. split; [reflexivity|].
  destruct (pending_request_destroyed awaiting_r 0 owner_r (mkReq acquire_r 11%N)
              Hnd eq_refl eq_refl) as (Hforced & Hexit).
  split.
  - destruct Hforced as (w' & cs & Hrun & Hcalls & Herr & Hcan & _).
    exists w', cs. repeat split; assumption.
  - destruct Hexit as (w' & cs & Hrun & Hcalls & Herr & Hcan & _).
    exists w', cs. repeat split; assumption.
Defined.

(** A second Acquire by the client that owns [awaiting_r]. *)
Lemma acquire_twice_denied_witness :
  args (mkMsg 2 ":1.42" (Some "w")) = Some "w" /\
  In owner_r (owners (transport awaiting_r)) /\
  name owner_r = sender (mkMsg 2 ":1.42" (Some "w")) /\
  acquire resume_pending (mkMsg 2 ":1.42" (Some "w")) awaiting_r =
    Some (Some (g_dbus_create_error (mkMsg 2 ":1.42" (Some "w")) Permission_denied),
          awaiting_r).
Proof.
  assert (Hin : In owner_r (owners (transport awaiting_r)))
    by (left; reflexivity).
  split; [reflexivity|]. split; [exact Hin|]. split; [reflexivity|].
  exact (acquire_twice_denied resume_pending (mkMsg 2 ":1.42" (Some "w")) "w"
           awaiting_r owner_r eq_refl Hin eq_refl).
Defined.

(** Acquire "x" on a new headset transport. *)
Lemma acquire_without_letters_denied_witness :
  args (mkMsg 1 ":1.42" (Some "x")) = Some "x" /\
  ~ In "r"%char (list_ascii_of_string "x") /\
  ~ In "w"%char (list_ascii_of_string "x") /\
  acquire resume_pending (mkMsg 1 ":1.42" (Some "x"))
          (boot (new_transport headset_ops)) =
    Some (Some (g_dbus_create_error (mkMsg 1 ":1.42" (Some "x")) Permission_denied),
          boot (new_transport headset_ops)).
Proof.
  assert (Hr : ~ In "r"%char (list_ascii_of_string "x"))
    by (intros [H|[]]; discriminate H).
  assert (Hw : ~ In "w"%char (list_ascii_of_string "x"))
    by (intros [H|[]]; discriminate H).
  split; [reflexivity|]. split; [exact Hr|]. split; [exact Hw|].
  exact (acquire_without_letters_denied resume_pending
           (mkMsg 1 ":1.42" (Some "x")) "x" _ eq_refl Hr Hw).
Defined.

(** Removing the only owner of [awaiting_r] unlocks the stream end point. *)
Lemma last_owner_removal_suspends_witness :
  lookup_owner 0 (owners (transport awaiting_r)) = Some owner_r /\
  exists w',
    media_owner_remove 0 awaiting_r = Some (tt, w') /\
    owners (transport w') = [] /\
    in_use (transport w') = false /\
    exists cs, calls w' = calls awaiting_r ++ cs ++ [a2dp_sep_unlock (Some 3)].
Proof.
  split; [reflexivity|].
  destruct (last_owner_removal_suspends awaiting_r 0 owner_r eq_refl)
    as ((w' & Hrun & Hlast) & _).
  assert (Hempty : owners (transport w') = []).
  { rewrite (media_owner_remove_eq awaiting_r 0 owner_r eq_refl) in Hrun.
    injection Hrun as <-. reflexivity. }
  destruct (Hlast Hempty) as (Hiu & cs & Hcalls).
  exists w'. repeat split; try assumption. exists cs. exact Hcalls.
Defined.

End Scenarios.

(** ** Resume and a granted Acquire in closed form *)

Section Closed.

Lemma resume_eq e p w :
  resume e p w = Some (resume_ticket (transport w) e, resumed e p w).
Proof.
  unfold resume, resume_a2dp, resume_headset, resumed, resume_ticket,
    sync_failure, resumed_session, resumed_in_use, resume_calls.
  destruct w as [[s l f i om d rl wl iu op] cs idl b].
  destruct e as [wt gs lk tk].
  destruct op, s as [s|], gs as [gs|], iu, lk; run_monad;
    rewrite <- ?app_assoc, ?app_nil_r; cbn;
    try reflexivity;
    destruct (N.eqb_spec tk 0) as [->|_]; reflexivity.
Qed.

Lemma acquire_eq e m a w :
  below (brk w) (owners (transport w)) ->
  args m = Some a ->
  find_owner_in (owners (transport w)) (sender m) = None ->
  grantable a (transport w) = true ->
  acquire e m w =
    Some (None,
          if sync_failure (transport w) e
          then torn_down (new_owner e m a (brk w) 0%N) (granted e m a w)
          else granted e m a w).
Proof.
  intros Hb Hargs Hf Hg.
  unfold acquire, media_transport_find_owner. rewrite Hargs.
  run_monad. rewrite Hf. cbn.
  rewrite media_transport_acquire_eq, Hg. cbn.
  unfold media_owner_create. run_monad.
  rewrite resume_eq. unfold resumed, granted, resume_ticket. cbn.
  run_monad. unfold take_locks; cbn.
  rewrite (lookup_owner_fresh (brk w)) by (auto; reflexivity). cbn.
  rewrite (update_owner_fresh (brk w)) by (auto; reflexivity).
  unfold set_request, new_owner. cbn.
  match goal with
  | |- context [sync_failure ?t' e] =>
      change (sync_failure t' e) with (sync_failure (transport w) e)
  end.
  destruct (sync_failure (transport w) e) eqn:Hs; cbn.
  - erewrite media_owner_remove_eq
      by (cbn; apply (lookup_owner_fresh (brk w)); auto).
    rewrite <- app_assoc. reflexivity.
  - unfold sync_failure in Hs.
    assert (Htk : N.eqb (ticket e) 0 = false).
    { destruct (ops (transport w)), (session (transport w)), (got_session e);
        try discriminate; apply orb_false_iff in Hs; tauto. }
    rewrite Htk. cbn. rewrite <- app_assoc. reflexivity.
Qed.

End Closed.

(** ** What an event can do *)

Section Transitions.

Lemma acquire_shape e m w :
  below (brk w) (owners (transport w)) ->
  exists r w', acquire e m w = Some (r, w') /\ outcome w w'.
Proof.
  intros Hb.
  destruct (args m) as [a|] eqn:Hargs.
  - destruct (find_owner_in (owners (transport w)) (sender m)) as [p|] eqn:Hf.
    + unfold acquire, media_transport_find_owner. rewrite Hargs. run_monad.
      rewrite Hf. do 2 eexists. split; [reflexivity | constructor].
    + destruct (grantable a (transport w)) eqn:Hg.
      * rewrite (acquire_eq e m a w Hb Hargs Hf Hg).
        destruct (sync_failure (transport w) e) eqn:Hs;
          do 2 eexists; (split; [reflexivity|]).
        -- apply out_failed; assumption.
        -- apply out_granted; assumption.
      * unfold acquire, media_transport_find_owner. rewrite Hargs. run_monad.
        rewrite Hf. cbn. rewrite media_transport_acquire_eq, Hg.
        do 2 eexists. split; [reflexivity | constructor].
  - unfold acquire. rewrite Hargs.
    do 2 eexists. split; [reflexivity | constructor].
Qed.

Lemma release_shape m w :
  exists r w', release m w = Some (r, w') /\ outcome w w'.
Proof.
  unfold release.
  destruct (args m) as [a|];
    [|do 2 eexists; split; [reflexivity | constructor]].
  unfold media_transport_find_owner. run_monad.
  destruct (find_owner_in (owners (transport w)) (sender m)) as [p|] eqn:Hf;
    [|do 2 eexists; split; [reflexivity | constructor]].
  destruct (find_owner_in_lookup _ _ _ Hf) as [o Hl]. rewrite Hl. cbn.
  destruct (Z.eqb (g_strcmp0 (accesstype o) a) 0); cbn.
  - rewrite (media_owner_remove_eq _ _ _ Hl).
    do 2 eexists. split; [reflexivity|]. apply (out_released w p o Hl).
  - destruct (non_null (g_strstr_len (accesstype o) a)) eqn:Hsub;
      [|do 2 eexists; split; [reflexivity | constructor]].
    cbn. rewrite media_transport_release_eq. run_monad. rewrite Hl. cbn.
    do 2 eexists. split; [reflexivity|].
    exact (out_partly w a p o Hl Hsub).
Qed.

Lemma disconnect_shape client w :
  exists w', disconnect client w = Some (tt, w') /\ outcome w w'.
Proof.
  unfold disconnect, media_transport_find_owner. run_monad.
  destruct (find_owner_in (owners (transport w)) client) as [p|] eqn:Hf;
    [|eexists; split; [reflexivity | constructor]].
  destruct (find_owner_in_lookup _ _ _ Hf) as [o Hl]. rewrite Hl. cbn.
  destruct (N.eqb (watch o) 0); cbn;
    [eexists; split; [reflexivity | constructor]|].
  rewrite (media_owner_exit_eq _ _ _ Hl).
  eexists. split; [reflexivity|]. exact (out_exited w p o Hl).
Qed.

(** Every method call, disconnect and idle source that returns does one
    of the things [outcome] lists. *)
Lemma step_outcome ev w w' :
  is_completion ev = false ->
  below (brk w) (owners (transport w)) ->
  step ev w = Some (tt, w') ->
  exists w'', outcome w w'' /\ same_transport w'' w'.
Proof.
  intros Hev Hb. destruct ev as [e m|m|client|r p|r p|]; try discriminate;
    cbn [step].
  - destruct (acquire_shape e m w Hb) as (r & w1 & Hrun & Hout).
    unfold bind. rewrite Hrun.
    destruct r; cbn; intros [= <-]; exists w1; split; auto; split; reflexivity.
  - destruct (release_shape m w) as (r & w1 & Hrun & Hout).
    unfold bind. rewrite Hrun.
    destruct r; cbn; intros [= <-]; exists w1; split; auto; split; reflexivity.
  - destruct (disconnect_shape client w) as (w1 & Hrun & Hout).
    rewrite Hrun. intros [= <-]. exists w1. split; auto. split; reflexivity.
  - unfold run_idle. destruct (idle w) as [|p rest];
      [intros [= <-]; exists w; split; [constructor | split; reflexivity]|].
    unfold remove_owner, bind.
    destruct (lookup_owner p (owners (transport w))) as [o|] eqn:Hl.
    + erewrite media_owner_remove_eq by (cbn; exact Hl).
      cbn. intros [= <-]. exists (torn_down o w). split.
      * exact (out_released w p o Hl).
      * split; reflexivity.
    + rewrite media_owner_remove_dangling by (cbn; exact Hl). discriminate.
Qed.

(** A resume callback that returns clears the ticket of a live owner and
    then, when it fails in the headset callback, tears that owner down. *)
Lemma completion_outcome ev w w' :
  is_completion ev = true ->
  step ev w = Some (tt, w') ->
  exists p o req w1,
    lookup_owner p (owners (transport w)) = Some o /\
    request o = Some req /\
    same_ownership
      (update_owner p (set_request (Some (mkReq (msg req) 0%N)))
         (owners (transport w))) w w1 /\
    (w' = w1 \/ w' = torn_down (cleared o req) w1).
Proof.
  intros Hev. destruct ev as [e m|m|client|r p|r p|]; try discriminate;
    cbn [step].
  - destruct (lookup_owner p (owners (transport w))) as [o|] eqn:Hl.
    + destruct (request o) as [req|] eqn:Hreq.
      * destruct (a2dp_resume_complete_spec r p w o req Hl Hreq)
          as (w1 & cs & Hrun & Hsame & _).
        rewrite Hrun. intros [= <-]. exists p, o, req, w1. auto.
      * unfold a2dp_resume_complete. run_monad. rewrite Hl. cbn.
        rewrite Hreq. discriminate.
    + unfold a2dp_resume_complete. run_monad. rewrite Hl. discriminate.
  - destruct (lookup_owner p (owners (transport w))) as [o|] eqn:Hl.
    + destruct (request o) as [req|] eqn:Hreq.
      * destruct (headset_resume_complete_spec r p w o req Hl Hreq)
          as (w1 & cs & Hrun & Hsame & _).
        rewrite Hrun. intros [= <-]. exists p, o, req, w1.
        destruct (headset_failed r); auto.
      * unfold headset_resume_complete. run_monad. rewrite Hl. cbn.
        rewrite Hreq. discriminate.
    + unfold headset_resume_complete. run_monad. rewrite Hl. discriminate.
Qed.

End Transitions.
(** ** One owner per client; the profile lock follows the owners *)

Section Tidy.

Lemma map_name_update p f l :
  (forall o, name (f o) = name o) ->
  map name (update_owner p f l) = map name l.
Proof.
  intros Hf. induction l as [|x l IH]; simpl; [reflexivity|].
  destruct (Nat.eqb (addr x) p); simpl; [rewrite Hf | rewrite IH]; reflexivity.
Qed.

Lemma update_owner_nil p f l : update_owner p f l = [] <-> l = [].
Proof.
  destruct l as [|x l]; simpl; [tauto|].
  destruct (Nat.eqb (addr x) p); split; discriminate.
Qed.

Lemma NoDup_name_remove p l :
  NoDup (map name l) -> NoDup (map name (g_slist_remove l p)).
Proof.
  induction l as [|x l IH]; simpl; [auto|].
  intros Hnd. inversion Hnd as [|? ? Hx Hl]; subst.
  destruct (Nat.eqb (addr x) p); [exact Hl|].
  simpl. constructor; [|auto].
  intros Hin. apply Hx. clear -Hin.
  induction l as [|y l IH]; simpl in *; [contradiction|].
  destruct (Nat.eqb (addr y) p); simpl in *; tauto.
Qed.

Lemma find_owner_in_absent l client :
  find_owner_in l client = None -> ~ In client (map name l).
Proof.
  induction l as [|x l IH]; simpl; [tauto|].
  destruct (Z.eqb (g_strcmp0 (name x) client) 0) eqn:Heq; [discriminate|].
  intros Hf [Hx|Hin]; [|exact (IH Hf Hin)].
  rewrite <- Hx, g_strcmp0_refl in Heq. discriminate.
Qed.

Lemma resumed_in_use_granted t e :
  sync_failure t e = false -> resumed_in_use t e = true.
Proof.
  unfold sync_failure, resumed_in_use.
  destruct (ops t), (session t), (got_session e), (in_use t), (locked e);
    simpl; intros H; try reflexivity; discriminate.
Qed.

Lemma resumed_in_use_kept t e :
  in_use t = true -> resumed_in_use t e = true.
Proof.
  unfold resumed_in_use. intros ->.
  destruct (ops t), (session t), (got_session e); reflexivity.
Qed.

Lemma tidy_without_owner w w' p o :
  tidy w ->
  lookup_owner p (owners (transport w)) = Some o ->
  transport w' = without_owner o (transport w) ->
  tidy w'.
Proof.
  intros (Hnd & Hiu) Hl Ht. unfold tidy. rewrite Ht.
  unfold without_owner. cbn. split.
  - apply NoDup_name_remove. exact Hnd.
  - assert (Hne : owners (transport w) <> [])
      by (intros E; rewrite E in Hl; discriminate).
    destruct (g_slist_remove (owners (transport w)) (addr o)).
    + split; [discriminate | intros H; contradiction].
    + split; [discriminate | intros _; apply Hiu; exact Hne].
Qed.

Lemma tidy_same_ownership w w' p f :
  (forall o, name (f o) = name o) ->
  tidy w ->
  owners (transport w') = update_owner p f (owners (transport w)) ->
  in_use (transport w') = in_use (transport w) ->
  tidy w'.
Proof.
  intros Hf (Hnd & Hiu) Ho Hi. unfold tidy. rewrite Ho, Hi. split.
  - rewrite map_name_update by exact Hf. exact Hnd.
  - rewrite Hiu. split; intros H E; apply H.
    + apply (update_owner_nil p f). exact E.
    + apply (update_owner_nil p f). exact E.
Qed.

Lemma outcome_tidy w w' :
  below (brk w) (owners (transport w)) ->
  tidy w -> outcome w w' -> tidy w'.
Proof.
  intros Hb Ht Hout. pose proof Ht as (Hnd & Hiu).
  destruct Hout as [|e m a Hargs Hf Hg Hs|e m a Hargs Hf Hg Hs
                    |p o Hl|a p o Hl Hsub|p o Hl].
  - exact Ht.
  - unfold tidy, granted. cbn. split.
    + rewrite map_app. cbn. apply NoDup_app; [exact Hnd | |].
      * constructor; [intros [] | constructor].
      * intros x Hx [<-|[]]. exact (find_owner_in_absent _ _ Hf Hx).
    + rewrite (resumed_in_use_granted _ _ Hs).
      split; [intros _ E; destruct (owners (transport w)); discriminate | auto].
  - unfold tidy, torn_down, without_owner, granted, new_owner. cbn.
    rewrite (g_slist_remove_fresh (brk w)) by (auto; reflexivity).
    split; [exact Hnd|].
    destruct (owners (transport w)) eqn:El.
    + split; [discriminate | intros H; contradiction].
    + rewrite resumed_in_use_kept by (apply Hiu; discriminate).
      split; [discriminate | reflexivity].
  - apply (tidy_without_owner w _ p o Ht Hl).
    destruct (lookup_owner_In _ _ _ Hl) as [_ <-]. reflexivity.
  - apply (tidy_same_ownership w _ p
             (fun o => set_accesstype (g_strdelimit (accesstype o) a " ") o));
      [reflexivity | exact Ht | reflexivity | reflexivity].
  - apply (tidy_without_owner w _ p o Ht Hl).
    destruct (lookup_owner_In _ _ _ Hl) as [_ <-]. reflexivity.
Qed.

Lemma tidy_same_transport w w' : same_transport w w' -> tidy w -> tidy w'.
Proof. intros (Ht & _). unfold tidy. rewrite Ht. auto. Qed.

Lemma step_tidy ev w w' :
  Inv w -> tidy w -> step ev w = Some (tt, w') -> tidy w'.
Proof.
  intros HI Ht Hstep. pose proof HI as (Hb & _).
  destruct (is_completion ev) eqn:Hev.
  - destruct (completion_outcome ev w w' Hev Hstep)
      as (p & o & req & w1 & Hl & Hreq & Hsame & Hw').
    pose proof Hsame as (Hown & _ & _ & _ & Hiu & _).
    assert (Ht1 : tidy w1)
      by (apply (tidy_same_ownership w w1 p
                   (set_request (Some (mkReq (msg req) 0%N))));
          [reflexivity | exact Ht | exact Hown | exact Hiu]).
    destruct Hw' as [->| ->]; [exact Ht1|].
    apply (tidy_without_owner w1 _ p (cleared o req) Ht1).
    + rewrite Hown.
      exact (lookup_owner_update p (set_request (Some (mkReq (msg req) 0%N)))
               _ o eq_refl Hl).
    + unfold cleared. cbn. reflexivity.
  - destruct (step_outcome ev w w' Hev Hb Hstep) as (w'' & Hout & Hsame).
    apply (tidy_same_transport w''); [exact Hsame|].
    exact (outcome_tidy w w'' Hb Ht Hout).
Qed.

Lemma run_tidy evs : forall w w',
  Inv w -> tidy w -> run evs w = Some (tt, w') -> tidy w'.
Proof.
  induction evs as [|ev evs IH]; intros w w' HI Ht; cbn [run].
  - intros [= <-]. exact Ht.
  - unfold bind. destruct (step ev w) as [[[] w1]|] eqn:Hs; [|discriminate].
    intros Hrun. apply (IH w1 w'); [| |exact Hrun].
    + exact (step_Inv ev w w1 HI Hs).
    + exact (step_tidy ev w w1 HI Ht Hs).
Qed.

Lemma tidy_boot t uuid registered :
  media_transport_create uuid registered = Some t -> tidy (boot t).
Proof.
  unfold media_transport_create.
  destruct uuid, registered; intros [= <-]; cbn; split;
    try constructor; try discriminate; intros H; contradiction.
Qed.

(** X1.  After any events on a freshly created transport, no two owners
    on the list have the same client name. *)
Theorem one_owner_per_client uuid registered t evs w :
  media_transport_create uuid registered = Some t ->
  run evs (boot t) = Some (tt, w) ->
  NoDup (map name (owners (transport w))).
Proof.
  intros Hc Hrun.
  exact (proj1 (run_tidy evs _ _ (Inv_boot _ _ _ Hc) (tidy_boot _ _ _ Hc) Hrun)).
Qed.

(** X2.  After any events on a freshly created transport, [in_use] is set
    exactly when the owner list is not empty: the profile lock taken by
    resume is held as long as an owner remains and given back with the
    last one. *)
Theorem profile_locked_while_owned uuid registered t evs w :
  media_transport_create uuid registered = Some t ->
  run evs (boot t) = Some (tt, w) ->
  (in_use (transport w) = true <-> owners (transport w) <> []).
Proof.
  intros Hc Hrun.
  exact (proj2 (run_tidy evs _ _ (Inv_boot _ _ _ Hc) (tidy_boot _ _ _ Hc) Hrun)).
Qed.

Lemma outcome_session w w' s :
  outcome w w' ->
  session (transport w) = Some s -> session (transport w') = Some s.
Proof.
  intros Hout Hs.
  assert (Hr : forall e, resumed_session (transport w) e = Some s)
    by (intros e; unfold resumed_session; rewrite Hs;
        destruct (ops (transport w)); reflexivity).
  destruct Hout;
    [exact Hs | exact (Hr e) | exact (Hr e) | exact Hs | exact Hs | exact Hs].
Qed.

Lemma step_session ev w w' s :
  below (brk w) (owners (transport w)) ->
  step ev w = Some (tt, w') ->
  session (transport w) = Some s -> session (transport w') = Some s.
Proof.
  intros Hb Hstep Hs. destruct (is_completion ev) eqn:Hev.
  - destruct (completion_outcome ev w w' Hev Hstep)
      as (p & o & req & w1 & _ & _ & Hsame & Hw').
    destruct Hsame as (_ & _ & _ & Hs1 & _).
    destruct Hw' as [->| ->]; cbn; rewrite Hs1; exact Hs.
  - destruct (step_outcome ev w w' Hev Hb Hstep) as (w'' & Hout & (Ht & _)).
    rewrite Ht. exact (outcome_session w w'' s Hout Hs).
Qed.

(** X3.  Once the transport has a signalling session, no event of the
    loop drops or replaces it. *)
Theorem session_survives evs : forall w w' s,
  Inv w ->
  run evs w = Some (tt, w') ->
  session (transport w) = Some s -> session (transport w') = Some s.
Proof.
  induction evs as [|ev evs IH]; intros w w' s HI; cbn [run].
  - intros [= <-]. auto.
  - unfold bind. destruct (step ev w) as [[[] w1]|] eqn:Hs; [|discriminate].
    intros Hrun Hsess. apply (IH w1 w' s); [| exact Hrun |].
    + exact (step_Inv ev w w1 HI Hs).
    + pose proof HI as (Hb & _). exact (step_session ev w w1 s Hb Hs Hsess).
Qed.

(** Method calls, disconnects and idle sources never touch the channel. *)
Lemma outcome_channel w w' :
  outcome w w' ->
  fd (transport w') = fd (transport w) /\
  imtu (transport w') = imtu (transport w) /\
  omtu (transport w') = omtu (transport w).
Proof. intros Hout. destruct Hout; cbn; auto. Qed.

(** X4.  A method call, a client disconnect or an idle source leaves the
    stored descriptor and MTU pair as they are: teardown, even of the last
    owner, does not reset the channel. *)
Theorem channel_outlives_owners ev w w' :
  is_completion ev = false ->
  below (brk w) (owners (transport w)) ->
  step ev w = Some (tt, w') ->
  fd (transport w') = fd (transport w) /\
  imtu (transport w') = imtu (transport w) /\
  omtu (transport w') = omtu (transport w).
Proof.
  intros Hev Hb Hstep.
  destruct (step_outcome ev w w' Hev Hb Hstep) as (w'' & Hout & (Ht & _)).
  rewrite Ht. exact (outcome_channel w w'' Hout).
Qed.

End Tidy.

(** ** Granted and refused Acquire *)

Section Grants.

Lemma find_owner_in_fresh l o :
  find_owner_in l (name o) = None ->
  find_owner_in (l ++ [o]) (name o) = Some (addr o).
Proof.
  induction l as [|x l IH]; simpl.
  - intros _. rewrite g_strcmp0_refl. reflexivity.
  - destruct (Z.eqb (g_strcmp0 (name x) (name o)) 0); [discriminate | exact IH].
Qed.

Lemma resume_ticket_granted t e :
  sync_failure t e = false -> resume_ticket t e = ticket e.
Proof. unfold resume_ticket. intros ->. reflexivity. Qed.

(** X5.  An Acquire from a client without an owner, whose locks are free
    and whose resume returns a ticket, returns no reply yet: the new owner
    is appended to the list with the request holding that ticket, the
    locks it names are set, [in_use] is set, and nothing is sent on the
    bus nor torn down. *)
Theorem acquire_granted e m a w :
  below (brk w) (owners (transport w)) ->
  args m = Some a ->
  (forall o, In o (owners (transport w)) -> name o <> sender m) ->
  grantable a (transport w) = true ->
  sync_failure (transport w) e = false ->
  exists w' cs,
    acquire e m w = Some (None, w') /\
    owners (transport w') =
      owners (transport w) ++
      [mkOwner (brk w) (Some (mkReq m (ticket e))) (sender m) a (watch_tag e)] /\
    read_lock (transport w') =
      (read_lock (transport w) || non_null (g_strstr_len a "r")) /\
    write_lock (transport w') =
      (write_lock (transport w) || non_null (g_strstr_len a "w")) /\
    in_use (transport w') = true /\
    fd (transport w') = fd (transport w) /\
    idle w' = idle w /\
    calls w' = calls w ++ cs /\
    count is_sent cs = 0 /\
    count is_teardown_call cs = 0.
Proof.
  intros Hb Hargs Hnone Hg Hs.
  pose proof (find_owner_in_none _ _ Hnone) as Hf.
  rewrite (acquire_eq e m a w Hb Hargs Hf Hg), Hs.
  exists (granted e m a w),
         (g_dbus_add_disconnect_watch (sender m) (brk w)
            :: resume_calls (transport w) e (brk w)).
  unfold granted. cbn.
  rewrite (resume_ticket_granted _ _ Hs), (resumed_in_use_granted _ _ Hs).
  destruct (grantable_locks _ _ Hg) as [Cr Cw].
  assert (Hcalls : forall p,
            p (g_dbus_add_disconnect_watch (sender m) (brk w)) = false ->
            (forall c, is_resume c = true -> p c = false) ->
            count p (g_dbus_add_disconnect_watch (sender m) (brk w)
                       :: resume_calls (transport w) e (brk w)) = 0).
  { intros p Hw Hp. unfold count. cbn. rewrite Hw.
    apply (count_none p). unfold resume_calls.
    destruct (ops (transport w)), (session (transport w)),
      (resumed_session (transport w) e), (in_use (transport w)), (locked e);
      cbn; repeat constructor; apply Hp; reflexivity. }
  repeat split.
  - destruct (non_null (g_strstr_len a "r")), (read_lock (transport w));
      simpl in *; congruence.
  - destruct (non_null (g_strstr_len a "w")), (write_lock (transport w));
      simpl in *; congruence.
  - refine (Hcalls is_sent eq_refl _). intros []; simpl; congruence.
  - refine (Hcalls is_teardown_call eq_refl _). intros []; simpl; congruence.
Qed.

(** X6.  An Acquire naming a lock that is already held is refused with
    "Permission denied" and leaves the world unchanged; in particular
    "rw" against one held lock does not take the other. *)
Theorem acquire_conflict_refused e m a w :
  args m = Some a ->
  (In "r"%char (list_ascii_of_string a) /\ read_lock (transport w) = true) \/
  (In "w"%char (list_ascii_of_string a) /\ write_lock (transport w) = true) ->
  acquire e m w = Some (Some (g_dbus_create_error m Permission_denied), w).
Proof.
  intros Hargs Hheld.
  assert (Hg : grantable a (transport w) = false).
  { unfold grantable. rewrite !strstr_letter.
    destruct Hheld as [[Hin ->]|[Hin ->]]; apply strchr_In in Hin; rewrite Hin;
      simpl; [reflexivity|].
    destruct (strchr a "r" && read_lock (transport w)); reflexivity. }
  unfold acquire, media_transport_find_owner. rewrite Hargs. run_monad.
  destruct (find_owner_in (owners (transport w)) (sender m)); [reflexivity|].
  rewrite media_transport_acquire_eq, Hg. reflexivity.
Qed.

(** X7.  A granted Acquire followed by a Release of the same access
    string from the same client puts the owner list and both locks back
    as they were; the Release is acknowledged, and the Acquire, still
    pending, is answered with one error and its ticket cancelled. *)
Theorem acquire_then_release_restores e m m' a w :
  below (brk w) (owners (transport w)) ->
  args m = Some a ->
  (forall o, In o (owners (transport w)) -> name o <> sender m) ->
  grantable a (transport w) = true ->
  sync_failure (transport w) e = false ->
  sender m' = sender m ->
  args m' = Some a ->
  exists w1 w2 cs,
    acquire e m w = Some (None, w1) /\
    release m' w1 = Some (Some (g_dbus_create_reply m'), w2) /\
    owners (transport w2) = owners (transport w) /\
    read_lock (transport w2) = read_lock (transport w) /\
    write_lock (transport w2) = write_lock (transport w) /\
    (in_use (transport w2) = true <-> owners (transport w) <> []) /\
    calls w2 = calls w1 ++ cs /\
    count (is_error_reply_to m) cs = 1 /\
    count is_cancel cs = (if N.eqb (ticket e) 0 then 0 else 1).
Proof.
  intros Hb Hargs Hnone Hg Hs Hsender Hargs'.
  pose proof (find_owner_in_none _ _ Hnone) as Hf.
  set (o := new_owner e m a (brk w) (ticket e)).
  assert (Hw1 : granted e m a w =
                mkWorld (set_in_use true
                           (set_session (resumed_session (transport w) e)
                              (set_owners (owners (transport w) ++ [o])
                                 (take_locks a (transport w)))))
                        (calls (granted e m a w)) (idle w) (S (brk w))).
  { unfold granted. rewrite (resume_ticket_granted _ _ Hs),
      (resumed_in_use_granted _ _ Hs). reflexivity. }
  assert (Hl1 : lookup_owner (brk w) (owners (transport (granted e m a w))) = Some o).
  { rewrite Hw1. cbn. apply (lookup_owner_fresh (brk w)); [exact Hb | reflexivity]. }
  assert (Hf1 : find_owner_in (owners (transport (granted e m a w))) (sender m')
                = Some (brk w)).
  { rewrite Hw1, Hsender. cbn.
    exact (find_owner_in_fresh (owners (transport w)) o Hf). }
  destruct (teardown_calls_pending (transport (granted e m a w)) o
              (mkReq m (ticket e)) eq_refl) as (Herr & Hcan & _).
  cbn [msg id] in Herr, Hcan.
  assert (Hacq : acquire e m w = Some (None, granted e m a w))
    by (rewrite (acquire_eq e m a w Hb Hargs Hf Hg), Hs; reflexivity).
  assert (Ht1 : transport (granted e m a w) =
                set_in_use true
                  (set_session (resumed_session (transport w) e)
                     (set_owners (owners (transport w) ++ [o])
                        (take_locks a (transport w)))))
    by (rewrite Hw1 at 1; reflexivity).
  clear Hw1. remember (granted e m a w) as w1 eqn:Ew1.
  exists w1, (torn_down o w1), (teardown_calls (transport w1) o).
  split; [exact Hacq|].
  split.
  { unfold release, media_transport_find_owner. rewrite Hargs'. run_monad.
    rewrite Hf1. cbn. rewrite Hl1. cbn.
    change (accesstype o) with a. rewrite g_strcmp0_refl. cbn.
    rewrite (media_owner_remove_eq _ _ _ Hl1). reflexivity. }
  destruct (grantable_locks _ _ Hg) as [Cr Cw].
  split; [|split; [|split; [|split; [|split; [reflexivity|split; assumption]]]]].
  all: unfold torn_down; cbn [transport]; rewrite Ht1;
    unfold without_owner, take_locks, holds, o, new_owner; cbn;
    try rewrite (g_slist_remove_fresh (brk w)) by (auto; reflexivity).
  - reflexivity.
  - destruct (non_null (g_strstr_len a "r")), (read_lock (transport w));
      simpl in *; congruence.
  - destruct (non_null (g_strstr_len a "w")), (write_lock (transport w));
      simpl in *; congruence.
  - destruct (owners (transport w)); split;
      try discriminate; try reflexivity; intros H; contradiction.
Qed.

End Grants.

(** ** Resume completion *)

Section Completion.



(** X10.  The idle source queued by a failed A2DP resume is not withdrawn
    when the client releases its access first: the Release frees the
    owner, the source stays queued, and when the loop runs it,
    [media_owner_remove] dereferences an owner that is gone. *)
Theorem idle_source_outlives_owner r p m w o req :
  Inv w ->
  lookup_owner p (owners (transport w)) = Some o ->
  request o = Some req ->
  idle w = [] ->
  a2dp_failed r = true ->
  find_owner_in (owners (transport w)) (sender m) = Some p ->
  args m = Some (accesstype o) ->
  (exists w', run [A2dpDone r p; Release m] w = Some (tt, w') /\
              idle w' = [p] /\
              lookup_owner p (owners (transport w')) = None) /\
  run [A2dpDone r p; Release m; Idle] w = None.
Proof.
  intros HI Hl Hreq Hidle Hr Hf Hargs.
  pose proof HI as (_ & Hnd & _).
  destruct (lookup_owner_In _ _ _ Hl) as [_ Ha].
  destruct (a2dp_resume_complete_spec r p w o req Hl Hreq)
    as (w1 & cs & Hrun & (Hown & _) & Hidle1 & _).
  rewrite Hr, Hidle in Hidle1. cbn in Hidle1.
  pose proof (lookup_owner_update p (set_request (Some (mkReq (msg req) 0%N)))
                _ o eq_refl Hl) as Hl1.
  rewrite <- Hown in Hl1.
  assert (Hf1 : find_owner_in (owners (transport w1)) (sender m) = Some p)
    by (rewrite Hown, find_owner_in_update by reflexivity; exact Hf).
  assert (Hrel : release m w1 =
                 Some (Some (g_dbus_create_reply m), torn_down (cleared o req) w1)).
  { unfold release, media_transport_find_owner. rewrite Hargs. run_monad.
    rewrite Hf1. cbn. rewrite Hl1. cbn. rewrite g_strcmp0_refl. cbn.
    rewrite (media_owner_remove_eq _ _ _ Hl1). reflexivity. }
  assert (Hgone : lookup_owner p
                    (g_slist_remove (owners (transport w1)) p) = None).
  { apply lookup_owner_removed. rewrite Hown, map_addr_update;
      [exact Hnd | reflexivity]. }
  split.
  - cbn [run step]. unfold bind. rewrite Hrun, Hrel. cbn.
    eexists. split; [reflexivity|]. cbn. rewrite Ha. split; assumption.
  - cbn [run step]. unfold bind. rewrite Hrun, Hrel. cbn.
    unfold run_idle. cbn. rewrite Hidle1.
    unfold remove_owner, bind.
    rewrite media_owner_remove_dangling; [reflexivity|].
    cbn. rewrite Ha. exact Hgone.
Qed.

End Completion.

Section Lookup.

(** X11.  [media_transport_find_owner] changes nothing; it returns an
    owner on the list whose name is the client's, and NULL exactly when no
    owner on the list has that name. *)
Theorem find_owner_sound_complete client w :
  exists r,
    media_transport_find_owner client w = Some (r, w) /\
    match r with
    | Some p =>
        exists o, In o (owners (transport w)) /\ addr o = p /\ name o = client
    | None => forall o, In o (owners (transport w)) -> name o <> client
    end.
Proof.
  unfold media_transport_find_owner. run_monad.
  eexists. split; [reflexivity|].
  induction (owners (transport w)) as [|x l IH]; simpl.
  - intros o [].
  - destruct (Z.eqb (g_strcmp0 (name x) client) 0) eqn:Heq.
    + apply g_strcmp0_eq in Heq. exists x. auto.
    + destruct (find_owner_in l client) as [p|].
      * destruct IH as (o & Hin & Ha & Hn). exists o. auto.
      * intros o [<-|Hin]; [|auto].
        intros Hn. rewrite Hn, g_strcmp0_refl in Heq. discriminate.
Qed.

End Lookup.

(** ** Release, disconnect, delay and destruction *)

Section Releases.

(** X12.  [media_transport_update_delay] stores the delay and emits one
    Delay notification when the value differs from the stored one, none
    otherwise; a second call with the same value changes nothing. *)
Theorem update_delay_notifies_once d w :
  exists w1,
    media_transport_update_delay d w = Some (tt, w1) /\
    delay (transport w1) = d /\
    calls w1 =
      calls w ++ (if N.eqb (delay (transport w)) d then []
                  else [emit_property_changed "Delay" d]) /\
    media_transport_update_delay d w1 = Some (tt, w1).
Proof.
  unfold media_transport_update_delay. run_monad.
  destruct (N.eqb_spec (delay (transport w)) d) as [Heq|Hne].
  - exists w. rewrite app_nil_r.
    destruct (N.eqb_spec (delay (transport w)) d); [|contradiction].
    repeat split. exact Heq.
  - eexists. split; [reflexivity|]. cbn. unfold set_delay. cbn.
    rewrite N.eqb_refl. repeat split.
Qed.

(** X13.  A Release of a proper part of the owner's access string is
    acknowledged, clears the locks it names and blanks those letters in
    the owner's string; the owner list keeps its members, [in_use] its
    value, and no call is made on any collaborator. *)
Theorem partial_release_keeps_owner m a w o :
  args m = Some a ->
  owner_of (sender m) w = Some o ->
  accesstype o <> a ->
  non_null (g_strstr_len (accesstype o) a) = true ->
  exists w',
    release m w = Some (Some (g_dbus_create_reply m), w') /\
    owner_of (sender m) w' =
      Some (set_accesstype (g_strdelimit (accesstype o) a " ") o) /\
    map addr (owners (transport w')) = map addr (owners (transport w)) /\
    read_lock (transport w') =
      (read_lock (transport w) && negb (non_null (g_strstr_len a "r"))) /\
    write_lock (transport w') =
      (write_lock (transport w) && negb (non_null (g_strstr_len a "w"))) /\
    in_use (transport w') = in_use (transport w) /\
    calls w' = calls w /\
    idle w' = idle w.
Proof.
  intros Hargs Ho Hne Hsub. destruct (owner_of_inv _ _ _ Ho) as (p & Hf & Hl).
  exists (partly_released a p w).
  split; [exact (release_partial m a w p o Hargs Hf Hl Hne Hsub)|].
  split; [exact (owner_of_partly_released a (sender m) p o w Hf Hl)|].
  unfold partly_released, drop_locks. cbn.
  rewrite map_addr_update by reflexivity.
  destruct (non_null (g_strstr_len a "r")), (non_null (g_strstr_len a "w"));
    rewrite ?andb_true_r, ?andb_false_r; repeat split.
Qed.

Lemma count_unlock_teardown_calls t o :
  count is_unlock (teardown_calls t o) =
  match g_slist_remove (owners t) (addr o) with [] => 1 | _ :: _ => 0 end.
Proof.
  unfold teardown_calls, last_owner_calls, free_calls, cancel_call, unlock_call.
  rewrite !count_app.
  destruct (N.eqb (watch o) 0), (request o) as [[rm rid]|],
    (g_slist_remove (owners t) (addr o)), (ops t); cbn;
    try destruct (N.eqb rid 0); reflexivity.
Qed.

(** X14.  A Release of exactly the owner's access string is acknowledged
    and removes the owner: the list is one shorter, the locks the owner
    held are clear, and the profile unlock is called once if the list is
    now empty and not at all otherwise. *)
Theorem full_release_removes_owner m w o :
  Inv w ->
  owner_of (sender m) w = Some o ->
  args m = Some (accesstype o) ->
  exists w' cs,
    release m w = Some (Some (g_dbus_create_reply m), w') /\
    lookup_owner (addr o) (owners (transport w')) = None /\
    length (owners (transport w)) = S (length (owners (transport w'))) /\
    read_lock (transport w') = (read_lock (transport w) && negb (holds "r" o)) /\
    write_lock (transport w') = (write_lock (transport w) && negb (holds "w" o)) /\
    calls w' = calls w ++ cs /\
    count is_unlock cs =
      (match owners (transport w') with [] => 1 | _ :: _ => 0 end) /\
    (owners (transport w') <> [] -> in_use (transport w') = in_use (transport w)).
Proof.
  intros HI Ho Hargs. destruct (owner_of_inv _ _ _ Ho) as (p & Hf & Hl).
  pose proof HI as (_ & Hnd & _).
  destruct (lookup_owner_In _ _ _ Hl) as [_ Ha].
  exists (torn_down o w), (teardown_calls (transport w) o).
  split.
  { unfold release, media_transport_find_owner. rewrite Hargs. run_monad.
    rewrite Hf. cbn. rewrite Hl. cbn. rewrite g_strcmp0_refl. cbn.
    rewrite (media_owner_remove_eq _ _ _ Hl). reflexivity. }
  unfold torn_down, without_owner. cbn.
  split; [apply lookup_owner_removed; exact Hnd|].
  split.
  { rewrite Ha. clear -Hl. revert Hl.
    induction (owners (transport w)) as [|x l IH]; simpl; [discriminate|].
    destruct (Nat.eqb (addr x) p); [reflexivity|].
    intros H. simpl. rewrite (IH H). reflexivity. }
  repeat split.
  - apply count_unlock_teardown_calls.
  - destruct (g_slist_remove (owners (transport w)) (addr o));
      [intros H; contradiction | reflexivity].
Qed.

(** X15.  A Release from a client that has no owner is refused with
    "Permission denied" and changes nothing. *)
Theorem release_without_owner_refused m w :
  (forall o, In o (owners (transport w)) -> name o <> sender m) ->
  release m w =
    match args m with
    | Some _ => Some (Some (g_dbus_create_error m Permission_denied), w)
    | None => Some (None, w)
    end.
Proof.
  intros Hnone. pose proof (find_owner_in_none _ _ Hnone) as Hf.
  unfold release, media_transport_find_owner.
  destruct (args m); [|reflexivity].
  run_monad. rewrite Hf. reflexivity.
Qed.

Lemma find_owner_in_removed l client p :
  NoDup (map addr l) ->
  NoDup (map name l) ->
  find_owner_in l client = Some p ->
  find_owner_in (g_slist_remove l p) client = None.
Proof.
  induction l as [|x l IH]; simpl; [discriminate|].
  intros Hna Hnn. inversion Hna as [|? ? Hxa Hla]; subst.
  inversion Hnn as [|? ? Hxn Hln]; subst.
  destruct (Z.eqb (g_strcmp0 (name x) client) 0) eqn:Heq.
  - intros [= <-]. rewrite Nat.eqb_refl.
    apply g_strcmp0_eq in Heq. subst client.
    destruct (find_owner_in l (name x)) as [q|] eqn:Hq; [|reflexivity].
    exfalso. apply Hxn. clear -Hq. revert Hq.
    induction l as [|y l IH]; simpl; [discriminate|].
    destruct (Z.eqb (g_strcmp0 (name y) (name x)) 0) eqn:Hy.
    + apply g_strcmp0_eq in Hy. auto.
    + intros H. right. exact (IH H).
  - intros Hf. destruct (find_owner_in_lookup _ _ _ Hf) as [o Ho].
    destruct (lookup_owner_In _ _ _ Ho) as [Hin Hao].
    destruct (Nat.eqb_spec (addr x) p) as [Hxp|_].
    + exfalso. apply Hxa. rewrite Hxp, <- Hao. apply in_map. exact Hin.
    + simpl. rewrite Heq. apply IH; assumption.
Qed.

(** X18.  When a client with a watched owner leaves the bus, its owner is
    removed and the locks it held are cleared; nothing is sent on the bus
    and the watch is not removed again. *)
Theorem disconnect_frees_client client w o :
  Inv w ->
  NoDup (map name (owners (transport w))) ->
  owner_of client w = Some o ->
  watch o <> 0%N ->
  exists w' cs,
    disconnect client w = Some (tt, w') /\
    owner_of client w' = None /\
    read_lock (transport w') = (read_lock (transport w) && negb (holds "r" o)) /\
    write_lock (transport w') = (write_lock (transport w) && negb (holds "w" o)) /\
    calls w' = calls w ++ cs /\
    count is_sent cs = 0 /\
    count is_remove_watch cs = 0.
Proof.
  intros HI Hnames Ho Hwatch. destruct (owner_of_inv _ _ _ Ho) as (p & Hf & Hl).
  pose proof HI as (_ & Hnd & _).
  destruct (lookup_owner_In _ _ _ Hl) as [_ Ha].
  exists (exited o w), (exit_calls (transport w) o).
  split.
  { unfold disconnect, media_transport_find_owner. run_monad.
    rewrite Hf. cbn. rewrite Hl. cbn.
    destruct (N.eqb_spec (watch o) 0); [contradiction|]. cbn.
    exact (media_owner_exit_eq _ _ _ Hl). }
  split.
  { unfold owner_of, exited, without_owner. cbn. rewrite Ha.
    rewrite (find_owner_in_removed _ _ _ Hnd Hnames Hf). reflexivity. }
  assert (Hcount : forall q,
            (forall c, is_cancel c = true -> q c = false) ->
            (forall c, is_unlock c = true -> q c = false) ->
            (forall x, q (dbus_message_unref x) = false) ->
            count q (exit_calls (transport w) o) = 0).
  { intros q Hc Hu Hx. unfold exit_calls, free_calls, last_owner_calls,
      cancel_call, unlock_call.
    destruct (request o) as [[rm rid]|],
      (g_slist_remove (owners (transport w)) (addr o)), (ops (transport w));
      cbn; try destruct (N.eqb rid 0); unfold count; cbn;
      rewrite ?Hx; rewrite ?Hc by reflexivity; rewrite ?Hu by reflexivity;
      reflexivity. }
  repeat split.
  - apply Hcount; [intros []; simpl; congruence | intros []; simpl; congruence
                  | intros x; reflexivity].
  - apply Hcount; [intros []; simpl; congruence | intros []; simpl; congruence
                  | intros x; reflexivity].
Qed.

Lemma foreach_owner_remove_tidy l : forall w,
  owners (transport w) = l ->
  exists w' cs,
    foreach_owner_remove (map addr l) w = Some (tt, w') /\
    owners (transport w') = [] /\
    calls w' = calls w ++ cs /\
    count is_unlock cs = (match l with [] => 0 | _ :: _ => 1 end) /\
    (Inv w -> Inv w').
Proof.
  induction l as [|x l IH]; intros w Hl; cbn [map foreach_owner_remove].
  - exists w, []. rewrite app_nil_r.
    split; [reflexivity|]. split; [exact Hl|].
    split; [reflexivity|]. split; [reflexivity | auto].
  - assert (Hx : lookup_owner (addr x) (owners (transport w)) = Some x)
      by (rewrite Hl; simpl; rewrite Nat.eqb_refl; reflexivity).
    unfold bind. rewrite (media_owner_remove_eq _ _ _ Hx).
    assert (Hrest : owners (transport (torn_down x w)) = l)
      by (cbn; rewrite Hl; simpl; rewrite Nat.eqb_refl; reflexivity).
    destruct (IH (torn_down x w) Hrest) as (w' & cs & Hrun & Hempty & Hcalls & Hcount & Hinv).
    exists w', (teardown_calls (transport w) x ++ cs).
    split; [exact Hrun|]. split; [exact Hempty|].
    split; [rewrite Hcalls; cbn; rewrite app_assoc; reflexivity|].
    split.
    + rewrite count_app, Hcount, count_unlock_teardown_calls.
      cbn in Hrest. rewrite Hrest. destruct l; reflexivity.
    + intros HI. apply Hinv. exact (Inv_torn_down w (addr x) x HI Hx).
Qed.

(** X19.  Destroying the transport removes every owner: the list ends
    empty, both locks clear, and the profile unlock has been called once
    if there was an owner and not at all otherwise. *)
Theorem transport_free_releases_everything w :
  Inv w ->
  exists w' cs,
    media_transport_free w = Some (tt, w') /\
    owners (transport w') = [] /\
    read_lock (transport w') = false /\
    write_lock (transport w') = false /\
    calls w' = calls w ++ cs /\
    count is_unlock cs =
      (match owners (transport w) with [] => 0 | _ :: _ => 1 end).
Proof.
  intros HI. unfold media_transport_free. run_monad.
  destruct (foreach_owner_remove_tidy (owners (transport w)) w eq_refl)
    as (w' & cs & Hrun & Hempty & Hcalls & Hcount & Hinv).
  exists w', cs. split; [exact Hrun|]. split; [exact Hempty|].
  destruct (Hinv HI) as (_ & _ & Hr & Hw). rewrite Hempty in Hr, Hw.
  cbn in Hr, Hw.
  repeat split; try assumption.
  - destruct (read_lock (transport w')); [discriminate | reflexivity].
  - destruct (write_lock (transport w')); [discriminate | reflexivity].
Qed.

End Releases.

(** ** GetProperties *)

Section Reporting.

(** X20.  The GetProperties dictionary has no key twice; ReadLock,
    WriteLock, IMTU and OMTU carry the transport's current values; Delay
    is present for A2DP transports only, NREC and InbandRingtone for
    headset transports only. *)
Theorem get_properties_reports s t :
  exists d,
    get_properties s true t = Some d /\
    NoDup (map fst d) /\
    dict_lookup "ReadLock" d = Some (boolean (read_lock t)) /\
    dict_lookup "WriteLock" d = Some (boolean (write_lock t)) /\
    dict_lookup "IMTU" d = Some (uint16 (imtu t)) /\
    dict_lookup "OMTU" d = Some (uint16 (omtu t)) /\
    dict_lookup "Delay" d =
      match ops t with
      | a2dp_ops => Some (uint16 (delay t))
      | headset_ops => None
      end /\
    dict_lookup "NREC" d =
      match ops t with
      | a2dp_ops => None
      | headset_ops => Some (boolean (nrec s))
      end /\
    dict_lookup "InbandRingtone" d =
      match ops t with
      | a2dp_ops => None
      | headset_ops => Some (boolean (inband s))
      end.
Proof.
  unfold get_properties. cbn. eexists. split; [reflexivity|].
  destruct (ops t); cbn; (split; [|repeat split]).
  all: repeat (constructor; [cbn; intuition discriminate|]).
  all: constructor.
Qed.

End Reporting.

(** ** Further theorems at concrete worlds *)

Section MoreScenarios.

Lemma Inv_awaiting_r : Inv awaiting_r.
Proof.
  unfold Inv, inv_core, below. vm_compute.
  repeat split; repeat constructor. intros [].
Qed.

Lemma Inv_holding_rw : Inv holding_rw.
Proof.
  unfold Inv, inv_core, below. vm_compute.
  repeat split; repeat constructor. intros [].
Qed.

Lemma Inv_new o : Inv (boot (new_transport o)).
Proof. repeat split; constructor. Qed.

Lemma below_new o :
  below (brk (boot (new_transport o))) (owners (transport (boot (new_transport o)))).
Proof. constructor. Qed.

Lemma nobody_new o (x : media_owner) (c : string) :
  In x (owners (transport (boot (new_transport o)))) -> name x <> c.
Proof. intros []. Qed.

Lemma run_two_clients :
  run two_clients (boot (new_transport a2dp_ops)) = Some (tt, after_two_clients).
Proof. vm_compute. reflexivity. Qed.

Lemma one_owner_per_client_witness :
  media_transport_create A2DP_SOURCE_UUID true = Some (new_transport a2dp_ops) /\
  run two_clients (boot (new_transport a2dp_ops)) = Some (tt, after_two_clients) /\
  NoDup (map name (owners (transport after_two_clients))).
Proof.
  split; [reflexivity|]. split; [exact run_two_clients|].
  exact (one_owner_per_client A2DP_SOURCE_UUID true _ two_clients _
           eq_refl run_two_clients).
Defined.

Lemma profile_locked_while_owned_witness :
  media_transport_create A2DP_SOURCE_UUID true = Some (new_transport a2dp_ops) /\
  run two_clients (boot (new_transport a2dp_ops)) = Some (tt, after_two_clients) /\
  (in_use (transport after_two_clients) = true <->
   owners (transport after_two_clients) <> []).
Proof.
  split; [reflexivity|]. split; [exact run_two_clients|].
  exact (profile_locked_while_owned A2DP_SOURCE_UUID true _ two_clients _
           eq_refl run_two_clients).
Defined.

Lemma session_survives_witness :
  Inv awaiting_r /\
  run [Disconnect ":1.42"] awaiting_r =
    Some (tt, world_after [Acquire resume_pending acquire_r; Disconnect ":1.42"]
                          a2dp_ops) /\
  session (transport awaiting_r) = Some 3 /\
  session (transport (world_after [Acquire resume_pending acquire_r;
                                   Disconnect ":1.42"] a2dp_ops)) = Some 3.
Proof.
  assert (Hrun : run [Disconnect ":1.42"] awaiting_r =
                 Some (tt, world_after [Acquire resume_pending acquire_r;
                                        Disconnect ":1.42"] a2dp_ops))
    by (vm_compute; reflexivity).
  split; [exact Inv_awaiting_r|]. split; [exact Hrun|]. split; [reflexivity|].
  exact (session_survives [Disconnect ":1.42"] awaiting_r _ 3
           Inv_awaiting_r Hrun eq_refl).
Defined.

Lemma channel_outlives_owners_witness :
  is_completion (Disconnect ":1.42") = false /\
  below (brk holding_rw) (owners (transport holding_rw)) /\
  exists w',
    step (Disconnect ":1.42") holding_rw = Some (tt, w') /\
    owners (transport w') = [] /\
    fd (transport w') = 9%Z.
Proof.
  assert (Hb : below (brk holding_rw) (owners (transport holding_rw)))
    by exact (proj1 Inv_holding_rw).
  split; [reflexivity|]. split; [exact Hb|].
  eexists. split; [vm_compute; reflexivity|]. split; [reflexivity|].
  refine (proj1 (channel_outlives_owners (Disconnect ":1.42") holding_rw _
                   eq_refl Hb _)).
  vm_compute. reflexivity.
Defined.

Lemma acquire_granted_witness :
  below (brk awaiting_r) (owners (transport awaiting_r)) /\
  args acquire_w = Some "w" /\
  (forall o, In o (owners (transport awaiting_r)) -> name o <> sender acquire_w) /\
  grantable "w" (transport awaiting_r) = true /\
  sync_failure (transport awaiting_r) resume_pending = false /\
  exists w',
    acquire resume_pending acquire_w awaiting_r = Some (None, w') /\
    length (owners (transport w')) = 2 /\
    read_lock (transport w') = true /\
    write_lock (transport w') = true.
Proof.
  assert (Hb : below (brk awaiting_r) (owners (transport awaiting_r)))
    by exact (proj1 Inv_awaiting_r).
  assert (Hnone : forall o, In o (owners (transport awaiting_r)) ->
                            name o <> sender acquire_w)
    by (intros o [<-|[]]; discriminate).
  split; [exact Hb|]. split; [reflexivity|]. split; [exact Hnone|].
  split; [reflexivity|]. split; [reflexivity|].
  destruct (acquire_granted resume_pending acquire_w "w" awaiting_r
              Hb eq_refl Hnone eq_refl eq_refl)
    as (w' & cs & Hrun & Hown & Hr & Hw & _).
  exists w'. split; [exact Hrun|]. rewrite Hown, Hr, Hw. repeat split.
Defined.

Lemma acquire_conflict_refused_witness :
  args (mkMsg 2 ":1.7" (Some "rw")) = Some "rw" /\
  In "r"%char (list_ascii_of_string "rw") /\
  read_lock (transport awaiting_r) = true /\
  write_lock (transport awaiting_r) = false /\
  acquire resume_pending (mkMsg 2 ":1.7" (Some "rw")) awaiting_r =
    Some (Some (g_dbus_create_error (mkMsg 2 ":1.7" (Some "rw")) Permission_denied),
          awaiting_r).
Proof.
  assert (Hin : In "r"%char (list_ascii_of_string "rw")) by (left; reflexivity).
  split; [reflexivity|]. split; [exact Hin|]. split; [reflexivity|].
  split; [reflexivity|].
  exact (acquire_conflict_refused resume_pending (mkMsg 2 ":1.7" (Some "rw"))
           "rw" awaiting_r eq_refl (or_introl (conj Hin eq_refl))).
Defined.

Lemma acquire_then_release_restores_witness :
  below (brk awaiting_r) (owners (transport awaiting_r)) /\
  args acquire_w = Some "w" /\
  grantable "w" (transport awaiting_r) = true /\
  sync_failure (transport awaiting_r) resume_pending = false /\
  sender (mkMsg 3 ":1.7" (Some "w")) = sender acquire_w /\
  exists w1 w2,
    acquire resume_pending acquire_w awaiting_r = Some (None, w1) /\
    release (mkMsg 3 ":1.7" (Some "w")) w1 =
      Some (Some (g_dbus_create_reply (mkMsg 3 ":1.7" (Some "w"))), w2) /\
    owners (transport w2) = owners (transport awaiting_r) /\
    write_lock (transport w2) = false.
Proof.
  assert (Hb : below (brk awaiting_r) (owners (transport awaiting_r)))
    by exact (proj1 Inv_awaiting_r).
  assert (Hnone : forall o, In o (owners (transport awaiting_r)) ->
                            name o <> sender acquire_w)
    by (intros o [<-|[]]; discriminate).
  split; [exact Hb|]. split; [reflexivity|]. split; [reflexivity|].
  split; [reflexivity|]. split; [reflexivity|].
  destruct (acquire_then_release_restores resume_pending acquire_w
              (mkMsg 3 ":1.7" (Some "w")) "w" awaiting_r
              Hb eq_refl Hnone eq_refl eq_refl eq_refl eq_refl)
    as (w1 & w2 & cs & Hacq & Hrel & Hown & _ & Hw & _).
  exists w1, w2. repeat split; assumption.
Defined.



Lemma idle_source_outlives_owner_witness :
  Inv awaiting_r /\
  lookup_owner 0 (owners (transport awaiting_r)) = Some owner_r /\
  request owner_r = Some (mkReq acquire_r 11%N) /\
  idle awaiting_r = [] /\
  a2dp_failed stream_error = true /\
  find_owner_in (owners (transport awaiting_r))
                (sender (mkMsg 2 ":1.42" (Some "r"))) = Some 0 /\
  args (mkMsg 2 ":1.42" (Some "r")) = Some (accesstype owner_r) /\
  run [A2dpDone stream_error 0; Release (mkMsg 2 ":1.42" (Some "r")); Idle]
      awaiting_r = None.
Proof.
  split; [exact Inv_awaiting_r|]. do 6 (split; [reflexivity|]).
  exact (proj2 (idle_source_outlives_owner stream_error 0
                  (mkMsg 2 ":1.42" (Some "r")) awaiting_r owner_r
                  (mkReq acquire_r 11%N) Inv_awaiting_r
                  eq_refl eq_refl eq_refl eq_refl eq_refl eq_refl)).
Defined.

Lemma partial_release_keeps_owner_witness :
  args (mkMsg 2 ":1.42" (Some "w")) = Some "w" /\
  owner_of (sender (mkMsg 2 ":1.42" (Some "w"))) holding_rw = Some owner_rw /\
  accesstype owner_rw <> "w" /\
  non_null (g_strstr_len (accesstype owner_rw) "w") = true /\
  exists w',
    release (mkMsg 2 ":1.42" (Some "w")) holding_rw =
      Some (Some (g_dbus_create_reply (mkMsg 2 ":1.42" (Some "w"))), w') /\
    owner_of ":1.42" w' = Some (set_accesstype "r " owner_rw) /\
    calls w' = calls holding_rw.
Proof.
  assert (Hne : accesstype owner_rw <> "w") by discriminate.
  split; [reflexivity|]. split; [reflexivity|]. split; [exact Hne|].
  split; [reflexivity|].
  destruct (partial_release_keeps_owner (mkMsg 2 ":1.42" (Some "w")) "w"
              holding_rw owner_rw eq_refl eq_refl Hne eq_refl)
    as (w' & Hrun & Ho & _ & _ & _ & _ & Hcalls & _).
  exists w'. repeat split; assumption.
Defined.

Lemma full_release_removes_owner_witness :
  Inv holding_rw /\
  owner_of (sender (mkMsg 2 ":1.42" (Some "rw"))) holding_rw = Some owner_rw /\
  args (mkMsg 2 ":1.42" (Some "rw")) = Some (accesstype owner_rw) /\
  exists w' cs,
    release (mkMsg 2 ":1.42" (Some "rw")) holding_rw =
      Some (Some (g_dbus_create_reply (mkMsg 2 ":1.42" (Some "rw"))), w') /\
    lookup_owner 0 (owners (transport w')) = None /\
    calls w' = calls holding_rw ++ cs.
Proof.
  split; [exact Inv_holding_rw|]. split; [reflexivity|]. split; [reflexivity|].
  destruct (full_release_removes_owner (mkMsg 2 ":1.42" (Some "rw")) holding_rw
              owner_rw Inv_holding_rw eq_refl eq_refl)
    as (w' & cs & Hrun & Hgone & _ & _ & _ & Hcalls & _).
  exists w', cs. repeat split; assumption.
Defined.

Lemma release_without_owner_refused_witness :
  (forall o, In o (owners (transport awaiting_r)) ->
             name o <> sender (mkMsg 2 ":1.7" (Some "r"))) /\
  release (mkMsg 2 ":1.7" (Some "r")) awaiting_r =
    Some (Some (g_dbus_create_error (mkMsg 2 ":1.7" (Some "r")) Permission_denied),
          awaiting_r).
Proof.
  assert (Hnone : forall o, In o (owners (transport awaiting_r)) ->
                            name o <> sender (mkMsg 2 ":1.7" (Some "r")))
    by (intros o [<-|[]]; discriminate).
  split; [exact Hnone|].
  exact (release_without_owner_refused (mkMsg 2 ":1.7" (Some "r")) awaiting_r Hnone).
Defined.

Lemma disconnect_frees_client_witness :
  Inv awaiting_r /\
  NoDup (map name (owners (transport awaiting_r))) /\
  owner_of ":1.42" awaiting_r = Some owner_r /\
  watch owner_r <> 0%N /\
  exists w',
    disconnect ":1.42" awaiting_r = Some (tt, w') /\
    owner_of ":1.42" w' = None /\
    read_lock (transport w') = false.
Proof.
  assert (Hnames : NoDup (map name (owners (transport awaiting_r))))
    by (repeat constructor; intros []).
  assert (Hwatch : watch owner_r <> 0%N) by discriminate.
  split; [exact Inv_awaiting_r|]. split; [exact Hnames|].
  split; [reflexivity|]. split; [exact Hwatch|].
  destruct (disconnect_frees_client ":1.42" awaiting_r owner_r
              Inv_awaiting_r Hnames eq_refl Hwatch)
    as (w' & cs & Hrun & Hgone & Hr & _).
  exists w'. repeat split; assumption.
Defined.

Lemma transport_free_releases_everything_witness :
  Inv after_two_clients /\
  exists w' cs,
    media_transport_free after_two_clients = Some (tt, w') /\
    owners (transport w') = [] /\
    write_lock (transport w') = false /\
    calls w' = calls after_two_clients ++ cs /\
    count is_unlock cs = 1.
Proof.
  assert (HI : Inv after_two_clients)
    by exact (run_Inv two_clients _ _ (Inv_new a2dp_ops) run_two_clients).
  split; [exact HI|].
  destruct (transport_free_releases_everything after_two_clients HI)
    as (w' & cs & Hrun & Hempty & _ & Hw & Hcalls & Hcount).
  exists w', cs. repeat split; assumption.
Defined.

Lemma release_refused_unchanged_witness :
  release (mkMsg 2 ":1.42" (Some "w")) awaiting_r =
    Some (Some (g_dbus_create_error (mkMsg 2 ":1.42" (Some "w")) Permission_denied),
          awaiting_r) /\
  awaiting_r = awaiting_r.
Proof.
  assert (Hrun : release (mkMsg 2 ":1.42" (Some "w")) awaiting_r =
                 Some (Some (g_dbus_create_error (mkMsg 2 ":1.42" (Some "w"))
                               Permission_denied), awaiting_r))
    by (vm_compute; reflexivity).
  split; [exact Hrun|].
  exact (release_refused_unchanged (mkMsg 2 ":1.42" (Some "w")) awaiting_r
           awaiting_r Hrun).
Defined.

Lemma release_foreign_letter_refused_witness :
  args (mkMsg 2 ":1.42" (Some "rw")) = Some "rw" /\
  owner_of (sender (mkMsg 2 ":1.42" (Some "rw"))) awaiting_r = Some owner_r /\
  In "w"%char (list_ascii_of_string "rw") /\
  ~ In "w"%char (list_ascii_of_string (accesstype owner_r)) /\
  release (mkMsg 2 ":1.42" (Some "rw")) awaiting_r =
    Some (Some (g_dbus_create_error (mkMsg 2 ":1.42" (Some "rw")) Permission_denied),
          awaiting_r).
Proof.
  assert (Hin : In "w"%char (list_ascii_of_string "rw"))
    by (right; left; reflexivity).
  assert (Hout : ~ In "w"%char (list_ascii_of_string (accesstype owner_r)))
    by (intros [H|[]]; discriminate H).
  split; [reflexivity|]. split; [reflexivity|]. split; [exact Hin|].
  split; [exact Hout|].
  exact (release_foreign_letter_refused (mkMsg 2 ":1.42" (Some "rw")) "rw"
           "w"%char awaiting_r owner_r eq_refl eq_refl Hin Hout).
Defined.

End MoreScenarios.
